(** * LibJpegWrap: a shallow embedding of the memory-backed JPEG bridge

    The development follows [src/LibJpegWrap/LibJpegWrap.cpp].  The wrapped
    JPEG engine (libjpeg) is not part of the repository; it appears here as
    a record of opaque operations ([engine]) over which every statement
    quantifies.

    Conventions of the embedding (LP64 build, the [#ifndef _WIN32] branch):
    - [int] is 32 bits signed, [JDIMENSION] (= [unsigned int]) is 32 bits,
      [ulong], [size_t] and [long] are 64 bits; every arithmetic operation
      of the source is written with the conversion it implies;
    - a [byte*] is an address in [Z], [nullptr] is address 0, and pointer
      arithmetic is addition of addresses;
    - caller memory is a finite map from addresses to bytes. *)

From Stdlib Require Import ZArith Lia Bool String List.
From stdpp Require Import base option list gmap.

Local Open Scope Z_scope.

(** ** C integer conversions *)

Module C.

(** Conversion to [unsigned int] / [JDIMENSION]. *)
Definition to_uint (x : Z) : Z := x mod 2 ^ 32.

(** Conversion to [int] (two's complement). *)
Definition to_int (x : Z) : Z := (x + 2 ^ 31) mod 2 ^ 32 - 2 ^ 31.

(** Conversion to [unsigned long] / [size_t]. *)
Definition to_ulong (x : Z) : Z := x mod 2 ^ 64.

(** Conversion to [long]. *)
Definition to_long (x : Z) : Z := (x + 2 ^ 63) mod 2 ^ 64 - 2 ^ 63.

Definition INT_MAX : Z := 2 ^ 31 - 1.
Definition UINT_MAX : Z := 2 ^ 32 - 1.
Definition ULONG_MAX : Z := 2 ^ 64 - 1.

Definition nullptr : Z := 0.

End C.

(** ** Row-pointer arrays

    [JSAMPROW y[16], cb[8], cr[8]]: an entry is [None] until the code
    assigns it. *)

Record row_arrays := {
  rows_y : list (option Z);
  rows_u : list (option Z);
  rows_v : list (option Z)
}.

Definition blank_rows : row_arrays :=
  {| rows_y := replicate 16 None;
     rows_u := replicate 8 None;
     rows_v := replicate 8 None |}.

Definition set_y (i : Z) (p : Z) (r : row_arrays) : row_arrays :=
  {| rows_y := <[Z.to_nat i := Some p]> (rows_y r);
     rows_u := rows_u r;
     rows_v := rows_v r |}.

Definition set_uv (i : Z) (pu pv : Z) (r : row_arrays) : row_arrays :=
  {| rows_y := rows_y r;
     rows_u := <[Z.to_nat i := Some pu]> (rows_u r);
     rows_v := <[Z.to_nat i := Some pv]> (rows_v r) |}.

Definition rows_wf (r : row_arrays) : Prop :=
  length (rows_y r) = 16%nat /\ length (rows_u r) = 8%nat /\
  length (rows_v r) = 8%nat.

(** ** The row loop of [YuvEncoder::Encode] (lines 171-178)

    [width] and [height] are [cinfo.image_width], [cinfo.image_height]
    ([JDIMENSION]); [Y], [U], [V] are the plane base addresses.  [n] counts
    the iterations still allowed (16 at the call), [i] is the loop
    variable. *)

Fixpoint Encode_rows (n : nat) (i : Z) (next_scanline width height : Z)
    (Y U V : Z) (r : row_arrays) : row_arrays :=
  match n with
  | O => r
  | S n' =>
    if (i <? 16) && (C.to_uint (next_scanline + i) <? height) then
      let r1 :=
        set_y i (Y + C.to_uint (C.to_uint (next_scanline + i) * width)) r in
      let r2 :=
        if Z.rem i 2 =? 0 then
          set_uv (Z.quot i 2)
            (U + C.to_uint (C.to_uint (next_scanline + i) / 2 * (width / 2)))
            (V + C.to_uint (C.to_uint (next_scanline + i) / 2 * (width / 2)))
            r1
        else r1 in
      Encode_rows n' (i + 1) next_scanline width height Y U V r2
    else r
  end.

(** Plane bases of [YuvEncoder::Encode] (lines 157-168). *)
Definition Encode_sizeY (width height : Z) : Z :=
  C.to_ulong (C.to_uint (width * height)).
Definition Encode_sizeU (width height : Z) : Z :=
  Encode_sizeY width height / 4.
Definition Encode_Y (data : Z) : Z := data.
Definition Encode_U (data width height : Z) : Z :=
  data + Encode_sizeY width height.
Definition Encode_V (data width height : Z) : Z :=
  data + Encode_sizeY width height + Encode_sizeU width height.

(** The three arrays handed to [jpeg_write_raw_data] for the batch that
    starts at [next_scanline]: the arrays are declared inside the [while]
    body, so every batch starts from unassigned entries. *)
Definition Encode_batch (Y U V width image_height next_scanline : Z)
    : row_arrays :=
  Encode_rows 16 0 next_scanline width image_height Y U V blank_rows.

(** ** The row loop of [DecodeToI420] (lines 362-380)

    [height], [y_stride], [uv_stride] are [int]; [output_scanline] is
    [JDIMENSION]. *)

Definition I420_y_row (output_scanline height y_stride Y i : Z) : Z :=
  let y_line := C.to_int (C.to_uint (output_scanline + i)) in
  if y_line <? height
  then Y + C.to_int (y_line * y_stride)
  else Y + C.to_int (C.to_int (height - 1) * y_stride).

Definition I420_uv_row (output_scanline height uv_stride P i : Z) : Z :=
  let uv_line := C.to_int (C.to_uint (output_scanline / 2 + i)) in
  if uv_line <? Z.quot height 2
  then P + C.to_int (uv_line * uv_stride)
  else P + C.to_int (C.to_int (Z.quot height 2 - 1) * uv_stride).

Fixpoint DecodeToI420_rows (n : nat) (i : Z)
    (output_scanline height y_stride uv_stride : Z)
    (Y U V : Z) (r : row_arrays) : row_arrays :=
  match n with
  | O => r
  | S n' =>
    if i <? 16 then
      let r1 := set_y i (I420_y_row output_scanline height y_stride Y i) r in
      let r2 :=
        if i <? 8 then
          set_uv i (I420_uv_row output_scanline height uv_stride U i)
                   (I420_uv_row output_scanline height uv_stride V i) r1
        else r1 in
      DecodeToI420_rows n' (i + 1) output_scanline height y_stride uv_stride
        Y U V r2
    else r
  end.

Definition DecodeToI420_batch (output_scanline width height Y U V : Z)
    (r : row_arrays) : row_arrays :=
  DecodeToI420_rows 16 0 output_scanline height
    width (Z.quot width 2) Y U V r.

(** ** Engine enumerations and constants ([jpeglib.h]) *)

Inductive J_COLOR_SPACE :=
  JCS_UNKNOWN | JCS_GRAYSCALE | JCS_RGB | JCS_YCbCr | JCS_CMYK | JCS_YCCK.

(** Conversion of the enumeration to [int] ([info->colorSpace] is an
    [int]); enumerators are numbered from 0 in declaration order. *)
Definition int_of_color_space (cs : J_COLOR_SPACE) : Z :=
  match cs with
  | JCS_UNKNOWN => 0 | JCS_GRAYSCALE => 1 | JCS_RGB => 2
  | JCS_YCbCr => 3 | JCS_CMYK => 4 | JCS_YCCK => 5
  end.

Inductive J_DCT_METHOD := JDCT_ISLOW | JDCT_IFAST | JDCT_FLOAT.

(** Return codes of [jpeg_read_header]. *)
Definition JPEG_SUSPENDED : Z := 0.
Definition JPEG_HEADER_OK : Z := 1.
Definition JPEG_HEADER_TABLES_ONLY : Z := 2.

(** ** The destination adapter (lines 54-59) *)

(** Function pointers stored in the public part of the adapter: the two
    slots of a function returning [void] hold [init_destination] or
    [term_destination], the slot of a function returning [boolean] holds
    [empty_output_buffer]. *)
Inductive dest_void_fn := fn_init_destination | fn_term_destination.
Inductive dest_bool_fn := fn_empty_output_buffer.

(** [struct jpeg_destination_mgr].  The two cursor fields are not written
    when the adapter is allocated; they are [None] until
    [init_destination] assigns them. *)
Record jpeg_destination_mgr := {
  next_output_byte : option Z;
  free_in_buffer : option Z;
  init_destination_p : dest_void_fn;
  empty_output_buffer_p : dest_bool_fn;
  term_destination_p : dest_void_fn
}.

Record memory_destination_mgr := {
  pub : jpeg_destination_mgr;
  buffer : Z;
  buffer_size : Z;
  data_size : Z
}.

(** LP64: 2 data words and 3 function pointers in [pub], then 3 words. *)
Definition sizeof_memory_destination_mgr : Z := 64.

(** The engine's permanent pool ([cinfo->mem], [JPOOL_PERMANENT]): the
    objects handed out by [alloc_small], by address, and the next free
    address. *)
Record jpeg_memory_mgr := {
  small_blocks : gmap Z memory_destination_mgr;
  pool_brk : Z
}.

Definition alloc_small (m : jpeg_memory_mgr) (size : Z) : Z * jpeg_memory_mgr :=
  (pool_brk m,
   {| small_blocks := small_blocks m; pool_brk := pool_brk m + size |}).

(** ** [struct jpeg_compress_struct]: the fields the wrapper reads or
    writes.  [quant] stands for the quantisation tables: the arguments of
    the last [jpeg_set_quality]. *)
Record jpeg_compress_struct := {
  dest : option Z;
  mem : jpeg_memory_mgr;
  image_width : Z;
  image_height : Z;
  input_components : Z;
  in_color_space : J_COLOR_SPACE;
  raw_data_in : bool;
  comp_info : list (Z * Z);
  dct_method : J_DCT_METHOD;
  quant : Z * bool;
  next_scanline : Z
}.

Definition set_dest_mem (c : jpeg_compress_struct) (d : option Z)
    (m : jpeg_memory_mgr) : jpeg_compress_struct :=
  {| dest := d; mem := m;
     image_width := image_width c; image_height := image_height c;
     input_components := input_components c;
     in_color_space := in_color_space c; raw_data_in := raw_data_in c;
     comp_info := comp_info c; dct_method := dct_method c;
     quant := quant c; next_scanline := next_scanline c |}.

Definition set_block (c : jpeg_compress_struct) (p : Z)
    (d : memory_destination_mgr) : jpeg_compress_struct :=
  set_dest_mem c (dest c)
    {| small_blocks := <[p := d]> (small_blocks (mem c));
       pool_brk := pool_brk (mem c) |}.

Definition set_next_scanline (c : jpeg_compress_struct) (n : Z)
    : jpeg_compress_struct :=
  {| dest := dest c; mem := mem c;
     image_width := image_width c; image_height := image_height c;
     input_components := input_components c;
     in_color_space := in_color_space c; raw_data_in := raw_data_in c;
     comp_info := comp_info c; dct_method := dct_method c;
     quant := quant c; next_scanline := n |}.

Definition set_dct_method (c : jpeg_compress_struct) (m : J_DCT_METHOD)
    : jpeg_compress_struct :=
  {| dest := dest c; mem := mem c;
     image_width := image_width c; image_height := image_height c;
     input_components := input_components c;
     in_color_space := in_color_space c; raw_data_in := raw_data_in c;
     comp_info := comp_info c; dct_method := m;
     quant := quant c; next_scanline := next_scanline c |}.

Definition set_quant (c : jpeg_compress_struct) (q : Z * bool)
    : jpeg_compress_struct :=
  {| dest := dest c; mem := mem c;
     image_width := image_width c; image_height := image_height c;
     input_components := input_components c;
     in_color_space := in_color_space c; raw_data_in := raw_data_in c;
     comp_info := comp_info c; dct_method := dct_method c;
     quant := q; next_scanline := next_scanline c |}.

(** The adapter [cinfo->dest] points to, if the pointer is not null and
    the object is live. *)
Definition dest_obj (c : jpeg_compress_struct) : option memory_destination_mgr :=
  match dest c with
  | Some p => small_blocks (mem c) !! p
  | None => None
  end.

(** ** The source adapter (lines 199-203) *)

Inductive src_fn :=
  fn_init_source | fn_fill_input_buffer | fn_skip_input_data
| fn_jpeg_resync_to_restart | fn_term_source.

Record memory_source_mgr := {
  next_input_byte : Z;
  bytes_in_buffer : Z;
  init_source_p : src_fn;
  fill_input_buffer_p : src_fn;
  skip_input_data_p : src_fn;
  resync_to_restart_p : src_fn;
  term_source_p : src_fn;
  src_buffer : Z;
  src_buffer_size : Z
}.

(** What [jpeg_read_header] learns from the stream. *)
Record jpeg_header := {
  hdr_image_width : Z;
  hdr_image_height : Z;
  hdr_num_components : Z;
  hdr_jpeg_color_space : J_COLOR_SPACE
}.

(** [struct jpeg_decompress_struct]: the fields the wrapper reads or
    writes.  The source adapter is reachable only through [cinfo->src]
    and is held in place. *)
Record jpeg_decompress_struct := {
  src : option memory_source_mgr;
  d_image_width : Z;
  d_image_height : Z;
  num_components : Z;
  jpeg_color_space : J_COLOR_SPACE;
  out_color_space : J_COLOR_SPACE;
  raw_data_out : bool;
  output_width : Z;
  output_height : Z;
  output_components : Z;
  output_scanline : Z
}.

(** [DecodeInfo] (lines 248-253). *)
Record DecodeInfo := {
  width : Z;
  height : Z;
  components : Z;
  colorSpace : Z
}.

(** ** The observable world

    [ram] is the caller's memory, [cerr] the text sent to [std::cerr],
    [info_cell] the [DecodeInfo] the caller passed by pointer, and [calls]
    the engine entry points invoked so far, oldest first, with the
    arguments the statements below speak about. *)

Inductive jcall :=
| call_create_compress
| call_set_defaults
| call_set_quality (quality : Z) (force_baseline : bool)
| call_start_compress (adapter : option Z) (bound : option memory_destination_mgr)
| call_write_raw_data (scanline : Z) (planes : row_arrays) (num_lines : Z)
| call_write_scanlines (scanline : Z) (row : Z)
| call_finish_compress
| call_destroy_compress
| call_create_decompress
| call_read_header
| call_start_decompress
| call_read_scanlines (scanline : Z) (row : Z)
| call_read_raw_data (scanline : Z) (planes : row_arrays) (max_lines : Z)
| call_abort_decompress
| call_finish_decompress
| call_destroy_decompress.

Record world := {
  ram : gmap Z Z;
  cerr : list string;
  info_cell : DecodeInfo;
  calls : list jcall
}.

(** ** Control: a state monad with three ways of not returning

    - [ErrorExit]: the engine reported an error through
      [cinfo->err->error_exit].  Every context of the source installs
      [jpeg_std_error] and nothing else, and the source has no [setjmp] or
      handler, so control never comes back to the wrapper;
    - [OutOfFuel]: a [while] loop of the source did not finish within the
      iteration budget of the model;
    - [Undefined]: the source dereferences a null or dangling adapter
      pointer, or reads a field that was never written. *)

Inductive halt := ErrorExit | OutOfFuel | Undefined.

Inductive outcome (A : Type) :=
| Returned (a : A) (w : world)
| Halted (h : halt) (w : world).
Arguments Returned {A} a w.
Arguments Halted {A} h w.

Definition final_world {A} (o : outcome A) : world :=
  match o with Returned _ w => w | Halted _ w => w end.

Definition M (A : Type) : Type := world -> outcome A.

Definition ret {A} (a : A) : M A := fun w => Returned a w.

Definition bind {A B} (m : M A) (k : A -> M B) : M B :=
  fun w => match m w with
           | Returned a w' => k a w'
           | Halted h w' => Halted h w'
           end.

Notation "'let*' x ':=' m 'in' k" := (bind m (fun x => k))
  (at level 10, x pattern, m at level 100, k at level 200).

Definition halt_with {A} (h : halt) : M A := fun w => Halted h w.

Definition log (e : jcall) : M unit :=
  fun w => Returned tt
    {| ram := ram w; cerr := cerr w; info_cell := info_cell w;
       calls := calls w ++ [e] |}.

Definition get_ram : M (gmap Z Z) := fun w => Returned (ram w) w.

Definition put_ram (m : gmap Z Z) : M unit :=
  fun w => Returned tt
    {| ram := m; cerr := cerr w; info_cell := info_cell w;
       calls := calls w |}.

Definition print_cerr (s : string) : M unit :=
  fun w => Returned tt
    {| ram := ram w; cerr := cerr w ++ [s]; info_cell := info_cell w;
       calls := calls w |}.

Definition update_info (f : DecodeInfo -> DecodeInfo) : M unit :=
  fun w => Returned tt
    {| ram := ram w; cerr := cerr w; info_cell := f (info_cell w);
       calls := calls w |}.

(** [info->width = v] and the three other field assignments. *)
Definition write_info_width (v : Z) : M unit :=
  update_info (fun i => {| width := v; height := height i;
                           components := components i;
                           colorSpace := colorSpace i |}).
Definition write_info_height (v : Z) : M unit :=
  update_info (fun i => {| width := width i; height := v;
                           components := components i;
                           colorSpace := colorSpace i |}).
Definition write_info_components (v : Z) : M unit :=
  update_info (fun i => {| width := width i; height := height i;
                           components := v;
                           colorSpace := colorSpace i |}).
Definition write_info_colorSpace (v : Z) : M unit :=
  update_info (fun i => {| width := width i; height := height i;
                           components := components i;
                           colorSpace := v |}).

Fixpoint store_bytes (p : Z) (bs : list Z) (m : gmap Z Z) : gmap Z Z :=
  match bs with
  | [] => m
  | b :: bs' => store_bytes (p + 1) bs' (<[p := b]> m)
  end.

Fixpoint store_rows (ptrs : list (option Z)) (rows : list (list Z))
    (m : gmap Z Z) : gmap Z Z :=
  match ptrs, rows with
  | Some p :: ptrs', row :: rows' => store_rows ptrs' rows' (store_bytes p row m)
  | None :: ptrs', _ :: rows' => store_rows ptrs' rows' m
  | _, _ => m
  end.

(** ** The engine

    The compressor and decompressor are external.  An [engine] gives, for
    each entry point the wrapper calls, what the engine produces from the
    state it is handed; [None] means that the engine detected an error
    and took its error exit.  The header parse has no such answer: what
    it finds, good or bad, it reports by its return code (spec, sections
    4.5 and 7).  [JDCT_DEFAULT], [JDCT_FASTEST], the default sampling
    factors and the default quality are constants of the engine. *)

Record engine := {
  JDCT_DEFAULT : J_DCT_METHOD;
  JDCT_FASTEST : J_DCT_METHOD;
  default_comp_info : J_COLOR_SPACE -> list (Z * Z);
  default_quant : Z * bool;
  (* bytes of the stream produced when compression starts *)
  eng_start_compress : jpeg_compress_struct -> option (list Z);
  (* luma rows consumed and bytes produced by one raw-data batch *)
  eng_write_raw_data :
    jpeg_compress_struct -> row_arrays -> Z -> gmap Z Z -> option (Z * list Z);
  (* rows consumed and bytes produced by one interleaved row *)
  eng_write_scanlines :
    jpeg_compress_struct -> Z -> Z -> gmap Z Z -> option (Z * list Z);
  (* bytes produced when compression finishes *)
  eng_finish_compress : jpeg_compress_struct -> option (list Z);
  (* return code and header fields *)
  eng_read_header :
    memory_source_mgr -> bool -> gmap Z Z -> Z * jpeg_header;
  (* output width, height and components *)
  eng_start_decompress :
    jpeg_decompress_struct -> gmap Z Z -> option (Z * Z * Z);
  (* rows delivered and the samples of the row *)
  eng_read_scanlines :
    jpeg_decompress_struct -> gmap Z Z -> option (Z * list Z);
  (* luma rows delivered and the rows of the three planes *)
  eng_read_raw_data :
    jpeg_decompress_struct -> gmap Z Z ->
    option (Z * (list (list Z) * list (list Z) * list (list Z)));
  (* [false]: the engine took its error exit *)
  eng_finish_decompress : jpeg_decompress_struct -> gmap Z Z -> bool
}.

(** ** Destination callbacks (lines 61-81) *)

Definition init_destination_obj (d : memory_destination_mgr)
    : memory_destination_mgr :=
  {| pub := {| next_output_byte := Some (buffer d);
               free_in_buffer := Some (buffer_size d);
               init_destination_p := init_destination_p (pub d);
               empty_output_buffer_p := empty_output_buffer_p (pub d);
               term_destination_p := term_destination_p (pub d) |};
     buffer := buffer d;
     buffer_size := buffer_size d;
     data_size := 0 |}.

Definition init_destination (c : jpeg_compress_struct) : M jpeg_compress_struct :=
  match dest c, dest_obj c with
  | Some p, Some d => ret (set_block c p (init_destination_obj d))
  | _, _ => halt_with Undefined
  end.

Definition endl : string := String (Ascii.ascii_of_nat 10) EmptyString.

Definition overflow_message : string :=
  String.append "Buffer overflow in custom destination manager" endl.

Definition empty_output_buffer (c : jpeg_compress_struct) : M bool :=
  let* _ := print_cerr overflow_message in
  ret false.

Definition term_destination_obj (d : memory_destination_mgr)
    : option memory_destination_mgr :=
  match free_in_buffer (pub d) with
  | Some f =>
    Some {| pub := pub d; buffer := buffer d; buffer_size := buffer_size d;
            data_size := C.to_ulong (buffer_size d - f) |}
  | None => None
  end.

Definition term_destination (c : jpeg_compress_struct) : M jpeg_compress_struct :=
  match dest c, dest_obj c with
  | Some p, Some d =>
    match term_destination_obj d with
    | Some d' => ret (set_block c p d')
    | None => halt_with Undefined
    end
  | _, _ => halt_with Undefined
  end.

(** ** [jpeg_memory_dest] (lines 82-106) *)

Definition fresh_dest (buf size : Z) : memory_destination_mgr :=
  {| pub := {| next_output_byte := None;
               free_in_buffer := None;
               init_destination_p := fn_init_destination;
               empty_output_buffer_p := fn_empty_output_buffer;
               term_destination_p := fn_term_destination |};
     buffer := buf;
     buffer_size := size;
     data_size := 0 |}.

Definition rebind_dest (buf size : Z) (d : memory_destination_mgr)
    : memory_destination_mgr :=
  {| pub := pub d; buffer := buf; buffer_size := size; data_size := 0 |}.

(** Returns the updated compressor and the adapter pointer. *)
Definition jpeg_memory_dest (c : jpeg_compress_struct) (buf size : Z)
    : jpeg_compress_struct * Z :=
  match dest c with
  | None =>
    let '(p, m) := alloc_small (mem c) sizeof_memory_destination_mgr in
    (set_block (set_dest_mem c (Some p) m) p (fresh_dest buf size), p)
  | Some p =>
    (set_dest_mem c (Some p)
       {| small_blocks := alter (rebind_dest buf size) p (small_blocks (mem c));
          pool_brk := pool_brk (mem c) |},
     p)
  end.

(** ** Engine entry points on the compression side *)

Definition call_dest_void (f : dest_void_fn) (c : jpeg_compress_struct)
    : M jpeg_compress_struct :=
  match f with
  | fn_init_destination => init_destination c
  | fn_term_destination => term_destination c
  end.

Definition call_dest_bool (f : dest_bool_fn) (c : jpeg_compress_struct)
    : M bool :=
  match f with
  | fn_empty_output_buffer => empty_output_buffer c
  end.

(** Modelled from the spec: a byte the engine writes goes to the write
    cursor of the adapter, the cursor advances and the remaining capacity
    drops by one (section 4.2). *)
Definition push_byte (c : jpeg_compress_struct) (p : Z)
    (d : memory_destination_mgr) (cur free : Z) (b : Z)
    : M jpeg_compress_struct :=
  let* m := get_ram in
  let* _ := put_ram (<[cur := b]> m) in
  ret (set_block c p
         {| pub := {| next_output_byte := Some (cur + 1);
                      free_in_buffer := Some (free - 1);
                      init_destination_p := init_destination_p (pub d);
                      empty_output_buffer_p := empty_output_buffer_p (pub d);
                      term_destination_p := term_destination_p (pub d) |};
            buffer := buffer d;
            buffer_size := buffer_size d;
            data_size := data_size d |}).

(** Modelled from the spec: how the engine pushes one byte into the
    destination adapter (section 4.2, flush-on-full; section 7,
    destination buffer overflow).  With no room left the engine calls the
    adapter's [empty_output_buffer] slot; on [FALSE] it halts further
    writing and takes its error exit, as the comment of line 74 of the
    source has it.  An answer [TRUE] would mean that the adapter made
    room; the only callback the source installs never gives it, and the
    model has no step for it. *)
Definition emit_byte (c : jpeg_compress_struct) (b : Z) : M jpeg_compress_struct :=
  match dest c, dest_obj c with
  | Some p, Some d =>
    match next_output_byte (pub d), free_in_buffer (pub d) with
    | Some cur, Some free =>
      if free =? 0 then
        let* made_room := call_dest_bool (empty_output_buffer_p (pub d)) c in
        if made_room : bool
        then halt_with Undefined
        else halt_with ErrorExit
      else push_byte c p d cur free b
    | _, _ => halt_with Undefined
    end
  | _, _ => halt_with Undefined
  end.

Fixpoint emit_bytes (c : jpeg_compress_struct) (bs : list Z)
    : M jpeg_compress_struct :=
  match bs with
  | [] => ret c
  | b :: bs' => let* c' := emit_byte c b in emit_bytes c' bs'
  end.

(** Lifts an answer of the engine: [None] is the error exit. *)
Definition engine_answer {A} (o : option A) : M A :=
  match o with
  | Some a => ret a
  | None => halt_with ErrorExit
  end.

(** Modelled from the spec: [jpeg_create_compress] hands back a compressor
    with no destination bound and an empty pool (section 4.4, create; the
    null test of [jpeg_memory_dest] relies on it). *)
Definition jpeg_create_compress : M jpeg_compress_struct :=
  let* _ := log call_create_compress in
  ret {| dest := None;
         mem := {| small_blocks := ∅; pool_brk := 4096 |};
         image_width := 0; image_height := 0; input_components := 0;
         in_color_space := JCS_UNKNOWN; raw_data_in := false;
         comp_info := []; dct_method := JDCT_ISLOW; quant := (0, false);
         next_scanline := 0 |}.

(** Modelled from the spec: [jpeg_set_defaults] fills the engine's default
    parameters for the declared input colour space (section 4.4). *)
Definition jpeg_set_defaults (E : engine) (c : jpeg_compress_struct)
    : M jpeg_compress_struct :=
  let* _ := log call_set_defaults in
  ret {| dest := dest c; mem := mem c;
         image_width := image_width c; image_height := image_height c;
         input_components := input_components c;
         in_color_space := in_color_space c; raw_data_in := raw_data_in c;
         comp_info := default_comp_info E (in_color_space c);
         dct_method := JDCT_DEFAULT E;
         quant := default_quant E; next_scanline := next_scanline c |}.

(** Modelled from the spec: [jpeg_set_quality] replaces the quality
    setting (section 4.4, setQuality). *)
Definition jpeg_set_quality (c : jpeg_compress_struct) (quality : Z)
    (force_baseline : bool) : M jpeg_compress_struct :=
  let* _ := log (call_set_quality quality force_baseline) in
  ret (set_quant c (quality, force_baseline)).

(** Modelled from the spec: [jpeg_start_compress] runs the adapter's
    [init] slot, then pushes the opening bytes of the stream (sections 4.2
    and 4.4). *)
Definition jpeg_start_compress (E : engine) (c : jpeg_compress_struct)
    : M jpeg_compress_struct :=
  let* _ := log (call_start_compress (dest c) (dest_obj c)) in
  match dest_obj c with
  | Some d =>
    let* c1 := call_dest_void (init_destination_p (pub d)) c in
    let* bs := engine_answer (eng_start_compress E c1) in
    let* c2 := emit_bytes c1 bs in
    ret (set_next_scanline c2 0)
  | None => halt_with Undefined
  end.

(** Modelled from the spec: [jpeg_write_raw_data] consumes one batch of
    rows through the three pointer arrays and pushes the bytes it codes
    (section 4.3, encode path).  Returns the number of rows consumed. *)
Definition jpeg_write_raw_data (E : engine) (c : jpeg_compress_struct)
    (planes : row_arrays) (num_lines : Z) : M (Z * jpeg_compress_struct) :=
  let* _ := log (call_write_raw_data (next_scanline c) planes num_lines) in
  let* m := get_ram in
  let* r := engine_answer (eng_write_raw_data E c planes num_lines m) in
  let (lines, bs) := r : Z * list Z in
  let* c1 := emit_bytes c bs in
  ret (lines, set_next_scanline c1 (C.to_uint (next_scanline c + lines))).

(** Modelled from the spec: [jpeg_write_scanlines], the interleaved
    counterpart used by the grayscale encoder (section 4.6). *)
Definition jpeg_write_scanlines (E : engine) (c : jpeg_compress_struct)
    (row : Z) (num_lines : Z) : M (Z * jpeg_compress_struct) :=
  let* _ := log (call_write_scanlines (next_scanline c) row) in
  let* m := get_ram in
  let* r := engine_answer (eng_write_scanlines E c row num_lines m) in
  let (lines, bs) := r : Z * list Z in
  let* c1 := emit_bytes c bs in
  ret (lines, set_next_scanline c1 (C.to_uint (next_scanline c + lines))).

(** Modelled from the spec: [jpeg_finish_compress] pushes the closing
    bytes, then runs the adapter's [terminate] slot (sections 4.2 and
    4.4). *)
Definition jpeg_finish_compress (E : engine) (c : jpeg_compress_struct)
    : M jpeg_compress_struct :=
  let* _ := log call_finish_compress in
  let* bs := engine_answer (eng_finish_compress E c) in
  let* c1 := emit_bytes c bs in
  match dest_obj c1 with
  | Some d => call_dest_void (term_destination_p (pub d)) c1
  | None => halt_with Undefined
  end.

(** Modelled from the spec: [jpeg_destroy_compress] releases the engine
    context (section 4.4, close). *)
Definition jpeg_destroy_compress (c : jpeg_compress_struct) : M unit :=
  log call_destroy_compress.

(** ** [class YuvEncoder] (lines 108-195) *)

Module YuvEncoder.

Record t := { cinfo : jpeg_compress_struct }.

(** The field assignments of the constructor. *)
Definition declare_input (c : jpeg_compress_struct) (width height : Z)
    : jpeg_compress_struct :=
  {| dest := dest c; mem := mem c;
     image_width := C.to_uint width; image_height := C.to_uint height;
     input_components := 3; in_color_space := JCS_YCbCr;
     raw_data_in := raw_data_in c; comp_info := comp_info c;
     dct_method := dct_method c; quant := quant c;
     next_scanline := next_scanline c |}.

Definition declare_sampling (c : jpeg_compress_struct) : jpeg_compress_struct :=
  {| dest := dest c; mem := mem c;
     image_width := image_width c; image_height := image_height c;
     input_components := input_components c;
     in_color_space := in_color_space c;
     raw_data_in := true;
     comp_info :=
       <[2%nat := (1, 1)]> (<[1%nat := (1, 1)]> (<[0%nat := (2, 2)]> (comp_info c)));
     dct_method := dct_method c; quant := quant c;
     next_scanline := next_scanline c |}.

(** [YuvEncoder(width, height, quality, bufferSize)] (lines 114-136). *)
Definition new (E : engine) (width height quality bufferSize : Z) : M t :=
  let* c0 := jpeg_create_compress in
  let c1 := declare_input c0 width height in
  let* c2 := jpeg_set_defaults E c1 in
  let* c3 := jpeg_set_quality c2 quality false in
  let c4 := declare_sampling c3 in
  let c5 := fst (jpeg_memory_dest c4 C.nullptr (C.to_ulong bufferSize)) in
  ret {| cinfo := c5 |}.

(** [SetQuality] (lines 137-140). *)
Definition SetQuality (enc : t) (quality : Z) : M t :=
  let* c := jpeg_set_quality (cinfo enc) quality false in
  ret {| cinfo := c |}.

(** [SetMode] (lines 143-149). *)
Definition SetMode (E : engine) (enc : t) (mode : Z) : t :=
  if mode =? 0
  then {| cinfo := set_dct_method (cinfo enc) JDCT_ISLOW |}
  else {| cinfo := set_dct_method (cinfo enc) (JDCT_FASTEST E) |}.

(** The [while] loop of [Encode] (lines 170-184); [width], [Y], [U], [V]
    are the locals computed before the loop. *)
Fixpoint Encode_loop (E : engine) (fuel : nat) (width Y U V : Z)
    (c : jpeg_compress_struct) : M jpeg_compress_struct :=
  if next_scanline c <? image_height c then
    match fuel with
    | O => halt_with OutOfFuel
    | S fuel' =>
      let planes :=
        Encode_batch Y U V width (image_height c) (next_scanline c) in
      let* r := jpeg_write_raw_data E c planes 16 in
      Encode_loop E fuel' width Y U V (snd r)
    end
  else ret c.

(** [Encode] (lines 150-190): the byte count and the updated session. *)
Definition Encode (E : engine) (fuel : nat) (enc : t)
    (data dstBuffer dstBufferSize : Z) : M (Z * t) :=
  let c1 := fst (jpeg_memory_dest (cinfo enc) dstBuffer dstBufferSize) in
  let* c2 := jpeg_start_compress E c1 in
  let width := image_width c2 in
  let height := image_height c2 in
  let Y := Encode_Y data in
  let U := Encode_U data width height in
  let V := Encode_V data width height in
  let* c3 := Encode_loop E fuel width Y U V c2 in
  let* c4 := jpeg_finish_compress E c3 in
  match dest_obj c4 with
  | Some d => ret (data_size d, {| cinfo := c4 |})
  | None => halt_with Undefined
  end.

(** [~YuvEncoder] (lines 191-194). *)
Definition delete (enc : t) : M unit := jpeg_destroy_compress (cinfo enc).

End YuvEncoder.

(** ** Source callbacks and [jpeg_memory_src] (lines 205-245) *)

Definition set_src (c : jpeg_decompress_struct) (s : option memory_source_mgr)
    : jpeg_decompress_struct :=
  {| src := s;
     d_image_width := d_image_width c; d_image_height := d_image_height c;
     num_components := num_components c;
     jpeg_color_space := jpeg_color_space c;
     out_color_space := out_color_space c; raw_data_out := raw_data_out c;
     output_width := output_width c; output_height := output_height c;
     output_components := output_components c;
     output_scanline := output_scanline c |}.

Definition init_source (c : jpeg_decompress_struct) : jpeg_decompress_struct := c.

Definition fill_input_buffer (c : jpeg_decompress_struct) : bool := false.

Definition skip_input_data_obj (s : memory_source_mgr) (num_bytes : Z)
    : memory_source_mgr :=
  {| next_input_byte := next_input_byte s + num_bytes;
     bytes_in_buffer := C.to_ulong (bytes_in_buffer s - num_bytes);
     init_source_p := init_source_p s;
     fill_input_buffer_p := fill_input_buffer_p s;
     skip_input_data_p := skip_input_data_p s;
     resync_to_restart_p := resync_to_restart_p s;
     term_source_p := term_source_p s;
     src_buffer := src_buffer s;
     src_buffer_size := src_buffer_size s |}.

(** [None]: the adapter pointer is null where the code dereferences it. *)
Definition skip_input_data (c : jpeg_decompress_struct) (num_bytes : Z)
    : option jpeg_decompress_struct :=
  if num_bytes >? 0 then
    match src c with
    | Some s => Some (set_src c (Some (skip_input_data_obj s num_bytes)))
    | None => None
    end
  else Some c.

Definition term_source (c : jpeg_decompress_struct) : jpeg_decompress_struct := c.

(** Every field is assigned whether or not the adapter had to be
    allocated. *)
Definition bound_source (buf size : Z) : memory_source_mgr :=
  {| next_input_byte := buf;
     bytes_in_buffer := size;
     init_source_p := fn_init_source;
     fill_input_buffer_p := fn_fill_input_buffer;
     skip_input_data_p := fn_skip_input_data;
     resync_to_restart_p := fn_jpeg_resync_to_restart;
     term_source_p := fn_term_source;
     src_buffer := buf;
     src_buffer_size := size |}.

Definition jpeg_memory_src (c : jpeg_decompress_struct) (buf size : Z)
    : jpeg_decompress_struct :=
  set_src c (Some (bound_source buf size)).

(** ** Engine entry points on the decompression side *)

(** Modelled from the spec: [jpeg_create_decompress] hands back a
    decompressor with no source bound (section 4.1). *)
Definition fresh_decompress : jpeg_decompress_struct :=
  {| src := None;
     d_image_width := 0; d_image_height := 0; num_components := 0;
     jpeg_color_space := JCS_UNKNOWN; out_color_space := JCS_UNKNOWN;
     raw_data_out := false;
     output_width := 0; output_height := 0; output_components := 0;
     output_scanline := 0 |}.

Definition jpeg_create_decompress : M jpeg_decompress_struct :=
  let* _ := log call_create_decompress in
  ret fresh_decompress.

Definition apply_header (c : jpeg_decompress_struct) (h : jpeg_header)
    : jpeg_decompress_struct :=
  {| src := src c;
     d_image_width := hdr_image_width h;
     d_image_height := hdr_image_height h;
     num_components := hdr_num_components h;
     jpeg_color_space := hdr_jpeg_color_space h;
     out_color_space := out_color_space c; raw_data_out := raw_data_out c;
     output_width := output_width c; output_height := output_height c;
     output_components := output_components c;
     output_scanline := output_scanline c |}.

(** Modelled from the spec: [jpeg_read_header] parses only the header and
    reports what it found by its return code: a malformed or truncated
    header is a code other than [JPEG_HEADER_OK]; with [JPEG_HEADER_OK]
    the image fields are those of the stream (sections 4.5 and 7). *)
Definition jpeg_read_header (E : engine) (c : jpeg_decompress_struct)
    (require_image : bool) : M (Z * jpeg_decompress_struct) :=
  let* _ := log call_read_header in
  match src c with
  | Some s =>
    let* m := get_ram in
    let (rc, h) := eng_read_header E s require_image m in
    if rc =? JPEG_HEADER_OK then ret (rc, apply_header c h) else ret (rc, c)
  | None => halt_with Undefined
  end.

Definition set_out_color_space (c : jpeg_decompress_struct)
    (cs : J_COLOR_SPACE) : jpeg_decompress_struct :=
  {| src := src c;
     d_image_width := d_image_width c; d_image_height := d_image_height c;
     num_components := num_components c;
     jpeg_color_space := jpeg_color_space c;
     out_color_space := cs; raw_data_out := raw_data_out c;
     output_width := output_width c; output_height := output_height c;
     output_components := output_components c;
     output_scanline := output_scanline c |}.

Definition set_raw_data_out (c : jpeg_decompress_struct) (b : bool)
    : jpeg_decompress_struct :=
  {| src := src c;
     d_image_width := d_image_width c; d_image_height := d_image_height c;
     num_components := num_components c;
     jpeg_color_space := jpeg_color_space c;
     out_color_space := out_color_space c; raw_data_out := b;
     output_width := output_width c; output_height := output_height c;
     output_components := output_components c;
     output_scanline := output_scanline c |}.

Definition set_output (c : jpeg_decompress_struct) (w h n line : Z)
    : jpeg_decompress_struct :=
  {| src := src c;
     d_image_width := d_image_width c; d_image_height := d_image_height c;
     num_components := num_components c;
     jpeg_color_space := jpeg_color_space c;
     out_color_space := out_color_space c; raw_data_out := raw_data_out c;
     output_width := w; output_height := h; output_components := n;
     output_scanline := line |}.

(** Modelled from the spec: [jpeg_start_decompress] fixes the output
    geometry for the requested output configuration and leaves the
    request itself alone (section 4.3, decode path). *)
Definition jpeg_start_decompress (E : engine) (c : jpeg_decompress_struct)
    : M jpeg_decompress_struct :=
  let* _ := log call_start_decompress in
  let* m := get_ram in
  let* r := engine_answer (eng_start_decompress E c m) in
  let '(w, h, n) := r : Z * Z * Z in
  ret (set_output c w h n 0).

(** Modelled from the spec: [jpeg_read_scanlines] delivers at most one
    interleaved row through the row pointer (section 4.3, grayscale). *)
Definition jpeg_read_scanlines (E : engine) (c : jpeg_decompress_struct)
    (rowPtr : Z) (max_lines : Z) : M (Z * jpeg_decompress_struct) :=
  let* _ := log (call_read_scanlines (output_scanline c) rowPtr) in
  let* m := get_ram in
  let* r := engine_answer (eng_read_scanlines E c m) in
  let (lines, samples) := r : Z * list Z in
  let* _ := put_ram (store_bytes rowPtr samples m) in
  ret (lines,
       set_output c (output_width c) (output_height c) (output_components c)
         (C.to_uint (output_scanline c + lines))).

(** Modelled from the spec: [jpeg_read_raw_data] delivers one batch of
    rows of the three planes through the pointer arrays (section 4.3,
    decode path). *)
Definition jpeg_read_raw_data (E : engine) (c : jpeg_decompress_struct)
    (planes : row_arrays) (max_lines : Z) : M (Z * jpeg_decompress_struct) :=
  let* _ := log (call_read_raw_data (output_scanline c) planes max_lines) in
  let* m := get_ram in
  let* r := engine_answer (eng_read_raw_data E c m) in
  let '(lines, (ys, us, vs)) :=
    r : Z * (list (list Z) * list (list Z) * list (list Z)) in
  let* _ := put_ram (store_rows (rows_v planes) vs
                       (store_rows (rows_u planes) us
                          (store_rows (rows_y planes) ys m))) in
  ret (lines,
       set_output c (output_width c) (output_height c) (output_components c)
         (C.to_uint (output_scanline c + lines))).

(** Modelled from the spec: [jpeg_abort_decompress] abandons the
    decompression in progress (sections 4.3 and 7). *)
Definition jpeg_abort_decompress (c : jpeg_decompress_struct) : M unit :=
  log call_abort_decompress.

(** Modelled from the spec: [jpeg_finish_decompress] completes the
    decompression (section 4.3). *)
Definition jpeg_finish_decompress (E : engine) (c : jpeg_decompress_struct)
    : M unit :=
  let* _ := log call_finish_decompress in
  let* m := get_ram in
  if eng_finish_decompress E c m then ret tt else halt_with ErrorExit.

(** Modelled from the spec: [jpeg_destroy_decompress] releases the engine
    context (section 4.6). *)
Definition jpeg_destroy_decompress (c : jpeg_decompress_struct) : M unit :=
  log call_destroy_decompress.

(** ** [DecodeToGray] (lines 258-300) *)

Definition Gray_rowStride (c : jpeg_decompress_struct) : Z :=
  C.to_ulong (C.to_uint (output_width c * C.to_uint (output_components c))).

Definition Gray_totalSize (c : jpeg_decompress_struct) : Z :=
  C.to_ulong (Gray_rowStride c * output_height c).

Fixpoint DecodeToGray_loop (E : engine) (fuel : nat) (output rowStride : Z)
    (c : jpeg_decompress_struct) : M jpeg_decompress_struct :=
  if output_scanline c <? output_height c then
    match fuel with
    | O => halt_with OutOfFuel
    | S fuel' =>
      let rowPtr := output + C.to_ulong (output_scanline c * rowStride) in
      let* r := jpeg_read_scanlines E c rowPtr 1 in
      DecodeToGray_loop E fuel' output rowStride (snd r)
    end
  else ret c.

Definition DecodeToGray (E : engine) (fuel : nat)
    (jpegData jpegSize output outputSize : Z) : M Z :=
  let* c0 := jpeg_create_decompress in
  let c1 := jpeg_memory_src c0 jpegData jpegSize in
  let* r := jpeg_read_header E c1 true in
  if negb (fst r =? JPEG_HEADER_OK) then
    let* _ := jpeg_destroy_decompress (snd r) in
    ret 0
  else
    let c2 := set_out_color_space (snd r) JCS_GRAYSCALE in
    let* c3 := jpeg_start_decompress E c2 in
    let* _ := write_info_width (C.to_int (output_width c3)) in
    let* _ := write_info_height (C.to_int (output_height c3)) in
    let* _ := write_info_components (output_components c3) in
    let* _ := write_info_colorSpace (int_of_color_space (out_color_space c3)) in
    let rowStride := Gray_rowStride c3 in
    let totalSize := Gray_totalSize c3 in
    if totalSize >? outputSize then
      let* _ := jpeg_abort_decompress c3 in
      let* _ := jpeg_destroy_decompress c3 in
      ret 0
    else
      let* c4 := DecodeToGray_loop E fuel output rowStride c3 in
      let* _ := jpeg_finish_decompress E c4 in
      let* _ := jpeg_destroy_decompress c4 in
      ret totalSize.

(** ** [DecodeToI420] (lines 305-389) *)

Definition I420_sizeY (width height : Z) : Z :=
  C.to_ulong (C.to_int (width * height)).
Definition I420_sizeU (width height : Z) : Z := I420_sizeY width height / 4.
Definition I420_totalSize (width height : Z) : Z :=
  C.to_ulong (C.to_ulong (I420_sizeY width height + I420_sizeU width height)
              + I420_sizeU width height).

(** [lines_to_read] (lines 359-360) is computed and never used. *)
Definition I420_lines_to_read (c : jpeg_decompress_struct) : Z :=
  let l := C.to_int (C.to_uint (output_height c - output_scanline c)) in
  if l >? 16 then 16 else l.

Fixpoint DecodeToI420_loop (E : engine) (fuel : nat) (width height Y U V : Z)
    (planes : row_arrays) (c : jpeg_decompress_struct)
    : M jpeg_decompress_struct :=
  if output_scanline c <? output_height c then
    match fuel with
    | O => halt_with OutOfFuel
    | S fuel' =>
      let planes' :=
        DecodeToI420_batch (output_scanline c) width height Y U V planes in
      let* r := jpeg_read_raw_data E c planes' 16 in
      DecodeToI420_loop E fuel' width height Y U V planes' (snd r)
    end
  else ret c.

Definition DecodeToI420 (E : engine) (fuel : nat)
    (jpegData jpegSize output outputSize : Z) : M Z :=
  let* c0 := jpeg_create_decompress in
  let c1 := jpeg_memory_src c0 jpegData jpegSize in
  let* r := jpeg_read_header E c1 true in
  if negb (fst r =? JPEG_HEADER_OK) then
    let* _ := jpeg_destroy_decompress (snd r) in
    ret 0
  else
    let c2 := set_out_color_space (set_raw_data_out (snd r) true) JCS_YCbCr in
    let* c3 := jpeg_start_decompress E c2 in
    let width := C.to_int (output_width c3) in
    let height := C.to_int (output_height c3) in
    let* _ := write_info_width width in
    let* _ := write_info_height height in
    let* _ := write_info_components 3 in
    let* _ := write_info_colorSpace (int_of_color_space (out_color_space c3)) in
    let sizeY := I420_sizeY width height in
    let sizeU := I420_sizeU width height in
    let totalSize := I420_totalSize width height in
    if totalSize >? outputSize then
      let* _ := jpeg_abort_decompress c3 in
      let* _ := jpeg_destroy_decompress c3 in
      ret 0
    else
      let Y := output in
      let U := output + sizeY in
      let V := output + sizeY + sizeU in
      let* c4 := DecodeToI420_loop E fuel width height Y U V blank_rows c3 in
      let* _ := jpeg_finish_decompress E c4 in
      let* _ := jpeg_destroy_decompress c4 in
      ret totalSize.

(** ** [EncodeGray8] (lines 393-427) *)

Definition declare_gray (c : jpeg_compress_struct) (width height : Z)
    : jpeg_compress_struct :=
  {| dest := dest c; mem := mem c;
     image_width := C.to_uint width; image_height := C.to_uint height;
     input_components := 1; in_color_space := JCS_GRAYSCALE;
     raw_data_in := raw_data_in c; comp_info := comp_info c;
     dct_method := dct_method c; quant := quant c;
     next_scanline := next_scanline c |}.

Fixpoint EncodeGray8_loop (E : engine) (fuel : nat) (grayData row_stride : Z)
    (c : jpeg_compress_struct) : M jpeg_compress_struct :=
  if next_scanline c <? image_height c then
    match fuel with
    | O => halt_with OutOfFuel
    | S fuel' =>
      let row := grayData + C.to_uint (next_scanline c * C.to_uint row_stride) in
      let* r := jpeg_write_scanlines E c row 1 in
      EncodeGray8_loop E fuel' grayData row_stride (snd r)
    end
  else ret c.

Definition EncodeGray8 (E : engine) (fuel : nat)
    (grayData width height quality output outputSize : Z) : M Z :=
  let* c0 := jpeg_create_compress in
  let cd := jpeg_memory_dest c0 output outputSize in
  let dest_ptr := snd cd in
  let c1 := declare_gray (fst cd) width height in
  let* c2 := jpeg_set_defaults E c1 in
  let* c3 := jpeg_set_quality c2 quality true in
  let* c4 := jpeg_start_compress E c3 in
  let row_stride := width in
  let* c5 := EncodeGray8_loop E fuel grayData row_stride c4 in
  let* c6 := jpeg_finish_compress E c5 in
  match small_blocks (mem c6) !! dest_ptr with
  | Some d =>
    let dataSize := data_size d in
    let* _ := jpeg_destroy_compress c6 in
    ret dataSize
  | None => halt_with Undefined
  end.

(** ** [GetJpegInfo] (lines 430-451) *)

Definition GetJpegInfo (E : engine) (jpegData jpegSize : Z) : M Z :=
  let* c0 := jpeg_create_decompress in
  let c1 := jpeg_memory_src c0 jpegData jpegSize in
  let* r := jpeg_read_header E c1 true in
  if negb (fst r =? JPEG_HEADER_OK) then
    let* _ := jpeg_destroy_decompress (snd r) in
    ret 0
  else
    let c2 := snd r in
    let* _ := write_info_width (C.to_int (d_image_width c2)) in
    let* _ := write_info_height (C.to_int (d_image_height c2)) in
    let* _ := write_info_components (num_components c2) in
    let* _ := write_info_colorSpace (int_of_color_space (jpeg_color_space c2)) in
    let* _ := jpeg_destroy_decompress c2 in
    ret 1.

(** ** The exported entry points (lines 453-489) *)

Module Exports.

Definition Create (E : engine) (width height quality size : Z)
    : M YuvEncoder.t :=
  YuvEncoder.new E width height quality (C.to_int size).

Definition Encode (E : engine) (fuel : nat) (encoder : YuvEncoder.t)
    (data dstBuffer dstBufferSize : Z) : M (Z * YuvEncoder.t) :=
  YuvEncoder.Encode E fuel encoder data dstBuffer dstBufferSize.

Definition SetQuality (encoder : YuvEncoder.t) (quality : Z)
    : M YuvEncoder.t :=
  YuvEncoder.SetQuality encoder quality.

Definition SetMode (E : engine) (encoder : YuvEncoder.t) (mode : Z)
    : YuvEncoder.t :=
  YuvEncoder.SetMode E encoder mode.

Definition Close (encoder : YuvEncoder.t) : M unit :=
  YuvEncoder.delete encoder.

Definition DecodeJpegToGray := DecodeToGray.
Definition GetJpegImageInfo := GetJpegInfo.
Definition EncodeGray8ToJpeg := EncodeGray8.
Definition DecodeJpegToI420 := DecodeToI420.

End Exports.

(** ** A small engine to run the wrapper on

    [toy_engine] codes nothing: it opens the stream with the two bytes of
    a start marker, produces one byte for every batch or row it is
    handed, and closes with the two bytes of an end marker.  On the
    decoding side a stream is four bytes, a start marker followed by the
    width and the height; shorter streams leave the parser waiting for
    input, and in a stream that does not open with the marker it finds
    no image. *)

Definition toy_read_header (s : memory_source_mgr) (require_image : bool)
    (m : gmap Z Z) : Z * jpeg_header :=
  let none := {| hdr_image_width := 0; hdr_image_height := 0;
                 hdr_num_components := 0;
                 hdr_jpeg_color_space := JCS_UNKNOWN |} in
  if bytes_in_buffer s <? 4 then (JPEG_SUSPENDED, none)
  else
    match m !! next_input_byte s, m !! (next_input_byte s + 1),
          m !! (next_input_byte s + 2), m !! (next_input_byte s + 3) with
    | Some 255, Some 216, Some w, Some h =>
      (JPEG_HEADER_OK,
       {| hdr_image_width := w; hdr_image_height := h;
          hdr_num_components := 1;
          hdr_jpeg_color_space := JCS_GRAYSCALE |})
    | _, _, _, _ => (JPEG_HEADER_TABLES_ONLY, none)
    end.

Definition toy_engine : engine :=
  {| JDCT_DEFAULT := JDCT_ISLOW;
     JDCT_FASTEST := JDCT_IFAST;
     default_comp_info := fun _ => [(2, 2); (1, 1); (1, 1)];
     default_quant := (75, true);
     eng_start_compress := fun _ => Some [255; 216];
     eng_write_raw_data := fun c _ n _ => Some (n, [next_scanline c mod 256]);
     eng_write_scanlines := fun c _ n _ => Some (n, [next_scanline c mod 256]);
     eng_finish_compress := fun _ => Some [255; 217];
     eng_read_header := toy_read_header;
     eng_start_decompress := fun c _ =>
       Some (d_image_width c, d_image_height c,
             match out_color_space c with JCS_GRAYSCALE => 1 | _ => 3 end);
     eng_read_scanlines := fun c _ =>
       Some (1, replicate (Z.to_nat (output_width c)) 128);
     eng_read_raw_data := fun c _ =>
       Some (16,
             (replicate 16 (replicate (Z.to_nat (output_width c)) 128),
              replicate 8 (replicate (Z.to_nat (output_width c / 2)) 128),
              replicate 8 (replicate (Z.to_nat (output_width c / 2)) 128)));
     eng_finish_decompress := fun _ _ => true |}.

(** The header of the toy stream held by [toy_world]. *)
Definition toy_header : jpeg_header :=
  {| hdr_image_width := 32; hdr_image_height := 20;
     hdr_num_components := 1; hdr_jpeg_color_space := JCS_GRAYSCALE |}.

Definition blank_header : jpeg_header :=
  {| hdr_image_width := 0; hdr_image_height := 0;
     hdr_num_components := 0; hdr_jpeg_color_space := JCS_UNKNOWN |}.

Definition blank_info : DecodeInfo :=
  {| width := 0; height := 0; components := 0; colorSpace := 0 |}.

(** A world whose memory holds the toy stream of a 32 x 20 image at
    address 1000. *)
Definition toy_world : world :=
  {| ram := <[1000 := 255]> (<[1001 := 216]> (<[1002 := 32]> (<[1003 := 20]> ∅)));
     cerr := [];
     info_cell := blank_info;
     calls := [] |}.

(** ** Vocabulary of the statements *)

(** The callback slots of an adapter hold the wrapper's functions. *)
Definition wired (d : memory_destination_mgr) : Prop :=
  init_destination_p (pub d) = fn_init_destination /\
  term_destination_p (pub d) = fn_term_destination.

(** A compressor that already has a destination adapter. *)
Definition has_adapter (c : jpeg_compress_struct) : Prop :=
  exists p d, dest c = Some p /\ small_blocks (mem c) !! p = Some d /\ wired d.

(** The adapter is bound to [buf]/[size] and compression has started: the
    cursor fields are assigned, and for a capacity that is a valid
    [ulong] the cursor sits [size - free] bytes into the buffer. *)
Definition writing (buf size : Z) (c : jpeg_compress_struct) : Prop :=
  exists p d cur free,
    dest c = Some p /\ small_blocks (mem c) !! p = Some d /\ wired d /\
    buffer d = buf /\ buffer_size d = size /\
    next_output_byte (pub d) = Some cur /\
    free_in_buffer (pub d) = Some free /\
    (0 <= size -> 0 <= free <= size /\ cur = buf + (size - free)).

(** The adapter of the compressor is bound to [buf]/[size]. *)
Definition bound_to (buf size : Z) (c : jpeg_compress_struct) : Prop :=
  exists p d, dest c = Some p /\ small_blocks (mem c) !! p = Some d /\
    wired d /\ buffer d = buf /\ buffer_size d = size.

(** Compression has finished on an adapter bound to capacity [size]: the
    written size is the capacity minus what is left of it. *)
Definition finished (buf size : Z) (c : jpeg_compress_struct) (r : Z) : Prop :=
  exists d free,
    dest_obj c = Some d /\ buffer d = buf /\ buffer_size d = size /\
    free_in_buffer (pub d) = Some free /\
    data_size d = r /\ r = C.to_ulong (size - free) /\
    (0 <= size -> 0 <= free <= size).

(** Everything of the compressor except the contents of its adapter and
    the scanline counter. *)
Definition same_params (c c' : jpeg_compress_struct) : Prop :=
  dest c' = dest c /\
  pool_brk (mem c') = pool_brk (mem c) /\
  dom (small_blocks (mem c')) = dom (small_blocks (mem c)) /\
  image_width c' = image_width c /\
  image_height c' = image_height c /\
  input_components c' = input_components c /\
  in_color_space c' = in_color_space c /\
  raw_data_in c' = raw_data_in c /\
  comp_info c' = comp_info c /\
  dct_method c' = dct_method c /\
  quant c' = quant c.

(** [w'] comes after [w]: the caller's [DecodeInfo] is the same, the
    engine calls made in between all satisfy [P], and for a capacity that
    is a valid [ulong] no byte outside [buf, buf + size) has changed. *)
Definition extends (P : jcall -> Prop) (buf size : Z) (w w' : world) : Prop :=
  info_cell w' = info_cell w /\
  (exists rest, calls w' = calls w ++ rest /\ Forall P rest) /\
  (exists more, cerr w' = cerr w ++ more) /\
  (0 <= size ->
   forall a, ~ (buf <= a < buf + size) -> ram w' !! a = ram w !! a).

(** [w] after one more engine call. *)
Definition add_call (w : world) (e : jcall) : world :=
  {| ram := ram w; cerr := cerr w; info_cell := info_cell w;
     calls := calls w ++ [e] |}.

(** The outcome of an action on the compressor that started from [c] and
    [w]: it never stops on an undefined operation. *)
Definition advances {A} (P : jcall -> Prop) (buf size : Z)
    (c : jpeg_compress_struct) (w : world)
    (get : A -> jpeg_compress_struct) (Q : A -> Prop) (o : outcome A) : Prop :=
  match o with
  | Returned a w' =>
    same_params c (get a) /\ writing buf size (get a) /\
    extends P buf size w w' /\ Q a
  | Halted h w' => h <> Undefined /\ extends P buf size w w'
  end.

(** [w'] comes after [w] as far as the caller's [DecodeInfo] and the
    engine calls go. *)
Definition follows (P : jcall -> Prop) (w w' : world) : Prop :=
  info_cell w' = info_cell w /\
  exists rest, calls w' = calls w ++ rest /\ Forall P rest.

(** An action that leaves the caller's [DecodeInfo] alone and makes only
    engine calls that satisfy [P]. *)
Definition traced (P : jcall -> Prop) {A} (m : M A) : Prop :=
  forall w, follows P w (final_world (m w)).

(** The decompressor as [DecodeToGray] and [DecodeToI420] hand it to
    [jpeg_start_decompress] after a header [h]. *)
Definition Gray_request (jpegData jpegSize : Z) (h : jpeg_header)
    : jpeg_decompress_struct :=
  set_out_color_space
    (apply_header (jpeg_memory_src fresh_decompress jpegData jpegSize) h)
    JCS_GRAYSCALE.

Definition I420_request (jpegData jpegSize : Z) (h : jpeg_header)
    : jpeg_decompress_struct :=
  set_out_color_space
    (set_raw_data_out
       (apply_header (jpeg_memory_src fresh_decompress jpegData jpegSize) h)
       true)
    JCS_YCbCr.

(** The world after the capacity check of a decoder has failed. *)
Definition aborted_world (w : world) (i : DecodeInfo) : world :=
  {| ram := ram w; cerr := cerr w; info_cell := i;
     calls := calls w ++ [call_create_decompress; call_read_header;
                          call_start_decompress; call_abort_decompress;
                          call_destroy_decompress] |}.

(** The world after a header probe. *)
Definition probed_world (w : world) (i : DecodeInfo) : world :=
  {| ram := ram w; cerr := cerr w; info_cell := i;
     calls := calls w ++ [call_create_decompress; call_read_header;
                          call_destroy_decompress] |}.



Definition is_read_raw_data (e : jcall) : bool :=
  match e with call_read_raw_data _ _ _ => true | _ => false end.

(** An action that never gives up for lack of loop iterations. *)
Definition loop_free {A} (m : M A) : Prop :=
  forall w h w', m w = Halted h w' -> h <> OutOfFuel.

(** What the batch events of one [Encode] call must look like. *)
Definition encode_batch_event (Y U V width height : Z) (e : jcall) : Prop :=
  match e with
  | call_write_raw_data s planes n =>
    0 <= s < height /\ n = 16 /\ planes = Encode_batch Y U V width height s
  | _ => True
  end.


(** A session as [Create] leaves it, on the toy engine. *)
Definition toy_session : YuvEncoder.t :=
  {| YuvEncoder.cinfo :=
       {| dest := Some 4096;
          mem := {| small_blocks := <[4096 := fresh_dest C.nullptr 0]> ∅;
                    pool_brk := 4160 |};
          image_width := 32; image_height := 20; input_components := 3;
          in_color_space := JCS_YCbCr; raw_data_in := true;
          comp_info := [(2, 2); (1, 1); (1, 1)];
          dct_method := JDCT_ISLOW; quant := (80, false);
          next_scanline := 0 |} |}.

(** ** Vocabulary of the further statements *)

(** Memory is the same outside the address range [lo, hi). *)
Definition unchanged_outside (lo hi : Z) (w w' : world) : Prop :=
  forall a, ~ (lo <= a < hi) -> ram w' !! a = ram w !! a.

(** The engine calls [YuvEncoder::Encode] makes. *)
Definition is_write_raw_data (e : jcall) : bool :=
  match e with call_write_raw_data _ _ _ => true | _ => false end.

Definition encode_call (e : jcall) : Prop :=
  match e with
  | call_start_compress _ _ | call_write_raw_data _ _ _
  | call_finish_compress => True
  | _ => False
  end.

(** One row of [DecodeToGray]: the pointer is [scanline] rows into the
    output. *)
Definition gray_row_event (output rowStride height : Z) (e : jcall) : Prop :=
  match e with
  | call_read_scanlines s row => 0 <= s < height /\ row = output + s * rowStride
  | _ => False
  end.

(** The engine calls of [EncodeGray8]: calls on the compressor, and rows
    read [scanline] rows into the input. *)
Definition gray_encode_event (grayData width height : Z) (e : jcall) : Prop :=
  match e with
  | call_write_scanlines s row => 0 <= s < height /\ row = grayData + s * width
  | call_create_compress | call_set_defaults | call_set_quality _ _
  | call_start_compress _ _ | call_finish_compress
  | call_destroy_compress => True
  | _ => False
  end.

(** The row the engine delivers is no longer than a row of the output. *)
Definition gray_rows_fit (E : engine) : Prop :=
  forall c m lines samples,
    eng_read_scanlines E c m = Some (lines, samples) ->
    Z.of_nat (length samples) <= Gray_rowStride c.

(** Asked for a row, the engine delivers or consumes exactly one. *)
Definition scanline_progress (E : engine) : Prop :=
  (forall c m lines samples,
     eng_read_scanlines E c m = Some (lines, samples) -> lines = 1) /\
  (forall c row m lines bs,
     eng_write_scanlines E c row 1 m = Some (lines, bs) -> lines = 1).

(** The rows of a raw batch are no longer than the rows of their plane. *)
Definition raw_rows_fit (E : engine) : Prop :=
  forall c m lines ys us vs,
    eng_read_raw_data E c m = Some (lines, (ys, us, vs)) ->
    Forall (fun r => (length r <= Z.to_nat (output_width c))%nat) ys /\
    Forall (fun r => (length r <= Z.to_nat (output_width c / 2))%nat) us /\
    Forall (fun r => (length r <= Z.to_nat (output_width c / 2))%nat) vs.

(** Asked for a raw batch, the engine delivers between 1 and 16 rows. *)
Definition raw_read_progress (E : engine) : Prop :=
  forall c m lines planes,
    eng_read_raw_data E c m = Some (lines, planes) -> 1 <= lines <= 16.

(** [w'] comes after [w] by engine calls that satisfy [P] and by writes
    inside [lo, hi) only. *)
Definition lands_in (P : jcall -> Prop) (lo hi : Z) (w w' : world) : Prop :=
  follows P w w' /\ unchanged_outside lo hi w w'.

(** [toy_engine] with interleaved rows of [rowStride] samples, whatever
    the number of output components. *)
Definition stride_engine : engine :=
  {| JDCT_DEFAULT := JDCT_DEFAULT toy_engine;
     JDCT_FASTEST := JDCT_FASTEST toy_engine;
     default_comp_info := default_comp_info toy_engine;
     default_quant := default_quant toy_engine;
     eng_start_compress := eng_start_compress toy_engine;
     eng_write_raw_data := eng_write_raw_data toy_engine;
     eng_write_scanlines := eng_write_scanlines toy_engine;
     eng_finish_compress := eng_finish_compress toy_engine;
     eng_read_header := eng_read_header toy_engine;
     eng_start_decompress := eng_start_decompress toy_engine;
     eng_read_scanlines := fun c _ =>
       Some (1, replicate (Z.to_nat (Gray_rowStride c)) 128);
     eng_read_raw_data := eng_read_raw_data toy_engine;
     eng_finish_decompress := eng_finish_decompress toy_engine |}.

(** * Properties *)

(** ** Integer conversions *)

Section CFacts.

Lemma to_uint_small x : 0 <= x <= C.UINT_MAX -> C.to_uint x = x.
Proof. unfold C.to_uint, C.UINT_MAX. intros H. apply Z.mod_small. lia. Qed.

Lemma to_int_small x : - 2 ^ 31 <= x <= C.INT_MAX -> C.to_int x = x.
Proof.
  unfold C.to_int, C.INT_MAX. intros H.
  rewrite Z.mod_small by lia. lia.
Qed.

Lemma to_ulong_small x : 0 <= x <= C.ULONG_MAX -> C.to_ulong x = x.
Proof. unfold C.to_ulong, C.ULONG_MAX. intros H. apply Z.mod_small. lia. Qed.

Lemma to_ulong_range x : 0 <= C.to_ulong x <= C.ULONG_MAX.
Proof.
  unfold C.to_ulong, C.ULONG_MAX.
  pose proof (Z.mod_pos_bound x (2 ^ 64) ltac:(lia)). lia.
Qed.

Lemma to_uint_range x : 0 <= C.to_uint x <= C.UINT_MAX.
Proof.
  unfold C.to_uint, C.UINT_MAX.
  pose proof (Z.mod_pos_bound x (2 ^ 32) ltac:(lia)). lia.
Qed.

Lemma uint_le_ulong : C.UINT_MAX <= C.ULONG_MAX.
Proof. unfold C.UINT_MAX, C.ULONG_MAX. lia. Qed.

Lemma int_le_uint : C.INT_MAX <= C.UINT_MAX.
Proof. unfold C.UINT_MAX, C.INT_MAX. lia. Qed.

End CFacts.

(** ** Row arrays *)

Section RowArrays.

Lemma set_y_wf i p r : rows_wf r -> rows_wf (set_y i p r).
Proof.
  unfold rows_wf, set_y; simpl. rewrite length_insert. tauto.
Qed.

Lemma set_uv_wf i pu pv r : rows_wf r -> rows_wf (set_uv i pu pv r).
Proof.
  unfold rows_wf, set_uv; simpl. rewrite !length_insert. tauto.
Qed.

Lemma blank_rows_wf : rows_wf blank_rows.
Proof. repeat split. Qed.

End RowArrays.

Create HintDb rows.
#[local] Hint Resolve set_y_wf set_uv_wf blank_rows_wf : rows.

(** ** The row loop of the encoder *)

Section EncodeRows.

Variables (s W H Y U V : Z).


Lemma Encode_rows_wf n i r :
  rows_wf r -> rows_wf (Encode_rows n i s W H Y U V r).
Proof.
  revert i r. induction n as [|n IH]; intros i r Hr; simpl; [done|].
  destruct ((i <? 16) && (C.to_uint (s + i) <? H)); [|done].
  apply IH. destruct (Z.rem i 2 =? 0); auto with rows.
Qed.





End EncodeRows.

(** ** The row loop of the I420 decoder *)

Section DecodeRows.

Variables (s h ys uvs Y U V : Z).

Lemma DecodeToI420_rows_wf n i r :
  rows_wf r -> rows_wf (DecodeToI420_rows n i s h ys uvs Y U V r).
Proof.
  revert i r. induction n as [|n IH]; intros i r Hr; simpl; [done|].
  destruct (i <? 16); [|done].
  apply IH. destruct (i <? 8); auto with rows.
Qed.

Lemma DecodeToI420_rows_below n i r (k : nat) :
  0 <= i -> (k < Z.to_nat i)%nat ->
  rows_y (DecodeToI420_rows n i s h ys uvs Y U V r) !! k = rows_y r !! k /\
  rows_u (DecodeToI420_rows n i s h ys uvs Y U V r) !! k = rows_u r !! k /\
  rows_v (DecodeToI420_rows n i s h ys uvs Y U V r) !! k = rows_v r !! k.
Proof.
  revert i r. induction n as [|n IH]; intros i r Hi Hk; simpl; [done|].
  destruct (i <? 16); [|done].
  destruct (IH (i + 1)
    (if i <? 8
     then set_uv i (I420_uv_row s h uvs U i) (I420_uv_row s h uvs V i)
            (set_y i (I420_y_row s h ys Y i) r)
     else set_y i (I420_y_row s h ys Y i) r) ltac:(lia) ltac:(lia))
    as (Hy & Hu & Hv).
  rewrite Hy, Hu, Hv. clear Hy Hu Hv IH.
  destruct (i <? 8); simpl; repeat split;
    try done; apply list_lookup_insert_ne; lia.
Qed.

Lemma DecodeToI420_rows_y_at n i r j :
  rows_wf r -> 0 <= i <= j -> j < i + Z.of_nat n -> j < 16 ->
  rows_y (DecodeToI420_rows n i s h ys uvs Y U V r) !! Z.to_nat j
    = Some (Some (I420_y_row s h ys Y j)).
Proof.
  revert i r. induction n as [|n IH]; intros i r Hr Hij Hn H16; simpl.
  { lia. }
  replace (i <? 16) with true by (symmetry; apply Z.ltb_lt; lia).
  destruct (Z.eq_dec i j) as [->|Hne].
  - destruct (DecodeToI420_rows_below n (j + 1)
      (if j <? 8
       then set_uv j (I420_uv_row s h uvs U j) (I420_uv_row s h uvs V j)
              (set_y j (I420_y_row s h ys Y j) r)
       else set_y j (I420_y_row s h ys Y j) r) (Z.to_nat j)
      ltac:(lia) ltac:(lia)) as (-> & _).
    destruct Hr as (Hy & _).
    destruct (j <? 8); simpl; apply list_lookup_insert_eq; lia.
  - apply IH; try lia. destruct (i <? 8); auto with rows.
Qed.

Lemma DecodeToI420_rows_uv_at n i r j :
  rows_wf r -> 0 <= i <= j -> j < i + Z.of_nat n -> j < 8 ->
  rows_u (DecodeToI420_rows n i s h ys uvs Y U V r) !! Z.to_nat j
    = Some (Some (I420_uv_row s h uvs U j)) /\
  rows_v (DecodeToI420_rows n i s h ys uvs Y U V r) !! Z.to_nat j
    = Some (Some (I420_uv_row s h uvs V j)).
Proof.
  revert i r. induction n as [|n IH]; intros i r Hr Hij Hn H8; simpl.
  { lia. }
  replace (i <? 16) with true by (symmetry; apply Z.ltb_lt; lia).
  destruct (Z.eq_dec i j) as [->|Hne].
  - destruct (DecodeToI420_rows_below n (j + 1)
      (if j <? 8
       then set_uv j (I420_uv_row s h uvs U j) (I420_uv_row s h uvs V j)
              (set_y j (I420_y_row s h ys Y j) r)
       else set_y j (I420_y_row s h ys Y j) r) (Z.to_nat j)
      ltac:(lia) ltac:(lia)) as (_ & -> & ->).
    replace (j <? 8) with true by (symmetry; apply Z.ltb_lt; lia).
    destruct Hr as (_ & Hu & Hv).
    simpl. split; apply list_lookup_insert_eq; lia.
  - apply IH; try lia. destruct (i <? 8); auto with rows.
Qed.

End DecodeRows.

(** The entries of one decoder batch, whatever the arrays held before. *)
Lemma DecodeToI420_batch_entries s w h Y U V r i :
  rows_wf r -> 0 <= i < 16 ->
  rows_y (DecodeToI420_batch s w h Y U V r) !! Z.to_nat i
    = Some (Some (I420_y_row s h w Y i)) /\
  (i < 8 ->
   rows_u (DecodeToI420_batch s w h Y U V r) !! Z.to_nat i
     = Some (Some (I420_uv_row s h (Z.quot w 2) U i)) /\
   rows_v (DecodeToI420_batch s w h Y U V r) !! Z.to_nat i
     = Some (Some (I420_uv_row s h (Z.quot w 2) V i))).
Proof.
  intros Hr Hi. unfold DecodeToI420_batch. split.
  - apply DecodeToI420_rows_y_at; try done; lia.
  - intros H8. apply DecodeToI420_rows_uv_at; try done; lia.
Qed.

(** Row addresses of the decoder when no [int] operation overflows. *)
Lemma I420_y_row_exact s w h Y i :
  0 <= s -> 0 <= i < 16 -> s + 16 <= C.INT_MAX ->
  0 < w -> 0 < h -> w * h <= C.INT_MAX ->
  I420_y_row s h w Y i = Y + (if s + i <? h then s + i else h - 1) * w.
Proof.
  intros Hs Hi Hs16 Hw Hh Hwh. unfold I420_y_row.
  pose proof int_le_uint.
  assert (Hh' : h <= C.INT_MAX) by (unfold C.INT_MAX in *; nia).
  rewrite (to_uint_small (s + i)) by lia.
  rewrite (to_int_small (s + i)) by (unfold C.INT_MAX in *; lia).
  cbv zeta. destruct (s + i <? h) eqn:Hlt.
  - apply Z.ltb_lt in Hlt.
    rewrite to_int_small; [done|]. unfold C.INT_MAX in *. nia.
  - rewrite (to_int_small (h - 1)) by (unfold C.INT_MAX in *; lia).
    rewrite to_int_small; [done|]. unfold C.INT_MAX in *. nia.
Qed.

Lemma I420_uv_row_exact s w h P i :
  0 <= s -> 0 <= i < 8 -> s + 16 <= C.INT_MAX ->
  0 < w -> 0 < h -> w * h <= C.INT_MAX ->
  I420_uv_row s h (Z.quot w 2) P i
    = P + (if s / 2 + i <? h / 2 then s / 2 + i else h / 2 - 1) * (w / 2).
Proof.
  intros Hs Hi Hs16 Hw Hh Hwh. unfold I420_uv_row.
  pose proof int_le_uint.
  assert (Hh' : h <= C.INT_MAX) by (unfold C.INT_MAX in *; nia).
  rewrite !Z.quot_div_nonneg by lia.
  assert (0 <= s / 2 <= s) by (split; [apply Z.div_pos; lia | apply Z.div_le_upper_bound; lia]).
  assert (0 <= h / 2 <= h) by (split; [apply Z.div_pos; lia | apply Z.div_le_upper_bound; lia]).
  assert (0 <= w / 2 <= w) by (split; [apply Z.div_pos; lia | apply Z.div_le_upper_bound; lia]).
  rewrite (to_uint_small (s / 2 + i)) by lia.
  rewrite (to_int_small (s / 2 + i)) by (unfold C.INT_MAX in *; lia).
  cbv zeta. destruct (s / 2 + i <? h / 2) eqn:Hlt.
  - apply Z.ltb_lt in Hlt.
    rewrite to_int_small; [done|]. unfold C.INT_MAX in *. nia.
  - rewrite (to_int_small (h / 2 - 1)) by (unfold C.INT_MAX in *; lia).
    rewrite to_int_small; [done|]. unfold C.INT_MAX in *. nia.
Qed.

(** ** Reasoning about actions *)

Section Actions.

Context (P : jcall -> Prop) (buf size : Z).

Lemma extends_refl w : extends P buf size w w.
Proof.
  split; [done|]. split; [|split].
  - exists []. rewrite app_nil_r. auto.
  - exists []. rewrite app_nil_r. done.
  - done.
Qed.

Lemma extends_trans w1 w2 w3 :
  extends P buf size w1 w2 -> extends P buf size w2 w3 ->
  extends P buf size w1 w3.
Proof.
  intros (Hi1 & (r1 & Hc1 & Hp1) & (m1 & He1) & Hr1)
         (Hi2 & (r2 & Hc2 & Hp2) & (m2 & He2) & Hr2).
  split; [|split; [|split]].
  - congruence.
  - exists (r1 ++ r2). rewrite Hc2, Hc1, app_assoc. split; [done|].
    apply Forall_app; done.
  - exists (m1 ++ m2). rewrite He2, He1, app_assoc. done.
  - intros Hs a Ha. rewrite Hr2, Hr1; auto.
Qed.

Lemma same_params_refl c : same_params c c.
Proof. repeat split. Qed.

Lemma same_params_trans c1 c2 c3 :
  same_params c1 c2 -> same_params c2 c3 -> same_params c1 c3.
Proof.
  unfold same_params. intros H1 H2.
  destruct H1 as (?&?&?&?&?&?&?&?&?&?&?), H2 as (?&?&?&?&?&?&?&?&?&?&?).
  repeat split; congruence.
Qed.

(** Sequencing: the continuation is run from the state the first action
    leaves. *)
Lemma advances_bind {A B} (m : M A) (k : A -> M B) c w getA getB
    (QA : A -> Prop) (QB : B -> Prop) :
  advances P buf size c w getA QA (m w) ->
  (forall a w', QA a -> same_params c (getA a) -> writing buf size (getA a) ->
     advances P buf size (getA a) w' getB QB (k a w')) ->
  advances P buf size c w getB QB (bind m k w).
Proof.
  unfold bind. destruct (m w) as [a w1|h w1]; simpl; [|done].
  intros (Hp & Hw & He & Hq) Hk.
  specialize (Hk a w1 Hq Hp Hw).
  destruct (k a w1) as [b w2|h w2]; simpl in *.
  - destruct Hk as (Hp' & Hw' & He' & Hq').
    split; [eapply same_params_trans; eauto|].
    split; [done|]. split; [eapply extends_trans; eauto|done].
  - destruct Hk as (Hh & He'). split; [done|].
    eapply extends_trans; eauto.
Qed.

Lemma advances_ret {A} (a : A) c w get (Q : A -> Prop) :
  same_params c (get a) -> writing buf size (get a) -> Q a ->
  advances P buf size c w get Q (ret a w).
Proof. intros. simpl. auto using extends_refl. Qed.

Lemma advances_weaken {A} c w get (Q Q' : A -> Prop) o :
  advances P buf size c w get Q o -> (forall a, Q a -> Q' a) ->
  advances P buf size c w get Q' o.
Proof.
  destruct o; simpl; [|done]. intros (?&?&?&?) HQ. auto.
Qed.

End Actions.

(** ** The destination adapter under the engine *)

Section Destination.

Context (P : jcall -> Prop) (buf size : Z).

Lemma advances_from {A} c0 w0 c w get (Q : A -> Prop) o :
  same_params c0 c -> extends P buf size w0 w ->
  advances P buf size c w get Q o -> advances P buf size c0 w0 get Q o.
Proof.
  intros Hp He. destruct o as [a w'|h w']; simpl.
  - intros (Hp' & Hw & He' & Hq).
    split; [eapply same_params_trans; eauto|].
    split; [done|]. split; [eapply extends_trans; eauto|done].
  - intros (Hh & He'). split; [done|]. eapply extends_trans; eauto.
Qed.

Lemma advances_log e c w :
  P e -> writing buf size c ->
  advances P buf size c w (fun _ : unit => c) (fun _ => True) (log e w).
Proof.
  intros He Hw. simpl. split; [apply same_params_refl|].
  split; [done|]. split; [|done].
  split; [done|]. split; [|split].
  - exists [e]. simpl. auto.
  - exists []. simpl. by rewrite app_nil_r.
  - done.
Qed.

Lemma advances_get_ram c w :
  writing buf size c ->
  advances P buf size c w (fun _ : gmap Z Z => c) (fun m => m = ram w)
    (get_ram w).
Proof.
  intros Hw. simpl. auto using same_params_refl, extends_refl.
Qed.

Lemma advances_engine_answer {A} (o : option A) c w :
  writing buf size c ->
  advances P buf size c w (fun _ : A => c) (fun a => o = Some a)
    (engine_answer o w).
Proof.
  intros Hw. destruct o; simpl.
  - auto using same_params_refl, extends_refl.
  - auto using extends_refl.
Qed.

Lemma set_block_same_params c p d d' :
  small_blocks (mem c) !! p = Some d -> same_params c (set_block c p d').
Proof.
  intros Hl. unfold same_params, set_block, set_dest_mem; simpl.
  repeat split. apply dom_insert_lookup_L. eauto.
Qed.

Lemma set_next_scanline_same_params c n :
  same_params c (set_next_scanline c n).
Proof. repeat split. Qed.

Lemma set_next_scanline_writing c n :
  writing buf size c -> writing buf size (set_next_scanline c n).
Proof. done. Qed.

(** One byte: either it lands inside the buffer, or there is no room
    left and the call ends in the error exit. *)
Lemma emit_byte_spec c b w :
  writing buf size c ->
  advances P buf size c w (fun c' => c')
    (fun c' => next_scanline c' = next_scanline c) (emit_byte c b w).
Proof.
  intros (p & d & cur & free & Hd & Hl & Hwd & Hb & Hs & Hcur & Hfree & Hinv).
  unfold emit_byte, dest_obj. rewrite Hd, Hl, Hcur, Hfree.
  destruct (free =? 0) eqn:Hz.
  - destruct (empty_output_buffer_p (pub d)). simpl.
    split; [done|]. split; [done|]. split; [|split].
    + exists []. by rewrite app_nil_r.
    + eexists. reflexivity.
    + done.
  - apply Z.eqb_neq in Hz. simpl.
    split; [eapply set_block_same_params; eauto|].
    split; [|split; [|done]].
    + exists p. eexists. exists (cur + 1), (free - 1).
      unfold set_block, set_dest_mem; simpl.
      split; [done|]. split; [apply lookup_insert_eq|]. simpl.
      split; [done|]. split; [done|]. split; [done|].
      split; [done|]. split; [done|].
      intros H0. specialize (Hinv H0). lia.
    + split; [done|]. split; [|split].
      * exists []. by rewrite app_nil_r.
      * exists []. by rewrite app_nil_r.
      * simpl. intros H0 a Ha. specialize (Hinv H0).
        apply lookup_insert_ne. lia.
Qed.

Lemma emit_bytes_spec bs : forall c w,
  writing buf size c ->
  advances P buf size c w (fun c' => c')
    (fun c' => next_scanline c' = next_scanline c) (emit_bytes c bs w).
Proof.
  induction bs as [|b bs IH]; intros c w Hw; cbn [emit_bytes].
  - apply (advances_ret _ _ _ c); auto using same_params_refl.
  - eapply advances_bind; [apply emit_byte_spec; done|].
    intros c1 w1 Hn Hp Hw1. simpl in *.
    eapply advances_weaken; [apply IH; done|].
    simpl. intros c2 Hn2. congruence.
Qed.

End Destination.

(** ** The compression entry points *)

Section Compression.

Context (E : engine) (P : jcall -> Prop) (buf size : Z).

Lemma bind_log {A} e (k : unit -> M A) w :
  bind (log e) k w = k tt (add_call w e).
Proof. reflexivity. Qed.

Lemma bind_ret {A B} (a : A) (k : A -> M B) w : bind (ret a) k w = k a w.
Proof. reflexivity. Qed.

Lemma bind_update_info {A} f (k : unit -> M A) w :
  bind (update_info f) k w
  = k tt {| ram := ram w; cerr := cerr w; info_cell := f (info_cell w);
            calls := calls w |}.
Proof. reflexivity. Qed.

Lemma bind_assoc {A B D} (m : M A) (f : A -> M B) (g : B -> M D) w :
  bind (bind m f) g w = bind m (fun a => bind (f a) g) w.
Proof. unfold bind. by destruct (m w). Qed.

Lemma extends_add_call w e : P e -> extends P buf size w (add_call w e).
Proof.
  intros He. split; [done|]. split; [|split].
  - exists [e]. auto.
  - exists []. simpl. by rewrite app_nil_r.
  - done.
Qed.

Lemma jpeg_start_compress_spec c w :
  bound_to buf size c ->
  P (call_start_compress (dest c) (dest_obj c)) ->
  advances P buf size c w (fun c' => c') (fun c' => next_scanline c' = 0)
    (jpeg_start_compress E c w).
Proof.
  intros (p & d & Hd & Hl & (Hi & Ht) & Hb & Hs) He.
  unfold jpeg_start_compress. rewrite bind_log.
  assert (Hobj : dest_obj c = Some d) by (unfold dest_obj; by rewrite Hd).
  rewrite Hobj, Hd in He.
  rewrite Hobj, Hi. cbn [call_dest_void]. unfold init_destination.
  rewrite Hd, Hobj, bind_ret.
  eapply advances_from;
    [eapply set_block_same_params; eauto | apply extends_add_call; done |].
  assert (Hw : writing buf size (set_block c p (init_destination_obj d))).
  { exists p, (init_destination_obj d), buf, size.
    unfold set_block, set_dest_mem; simpl.
    rewrite lookup_insert_eq, Hb, Hs.
    repeat split; try done; lia. }
  eapply advances_bind; [apply advances_engine_answer; done|].
  intros bs w1 _ _ _. cbv beta.
  eapply advances_bind; [apply emit_bytes_spec; done|].
  intros c2 w2 _ _ Hw2. cbv beta.
  apply (advances_ret P buf size (set_next_scanline c2 0));
    auto using set_next_scanline_same_params.
Qed.

Lemma jpeg_write_raw_data_spec c planes n w :
  writing buf size c ->
  P (call_write_raw_data (next_scanline c) planes n) ->
  advances P buf size c w snd
    (fun r => next_scanline (snd r) = C.to_uint (next_scanline c + fst r) /\
              exists m bs, eng_write_raw_data E c planes n m = Some (fst r, bs))
    (jpeg_write_raw_data E c planes n w).
Proof.
  intros Hw He. unfold jpeg_write_raw_data.
  eapply advances_bind; [apply advances_log; done|].
  intros [] w1 _ _ _.
  eapply advances_bind; [apply advances_get_ram; done|].
  intros m w2 _ _ _.
  eapply advances_bind; [apply advances_engine_answer; done|].
  intros [lines bs] w3 Hans _ _. cbv beta iota.
  eapply advances_bind; [apply emit_bytes_spec; done|].
  intros c1 w4 Hn _ Hw1. cbv beta.
  apply (advances_ret P buf size
    (lines, set_next_scanline c1 (C.to_uint (next_scanline c + lines)))).
  - apply set_next_scanline_same_params.
  - done.
  - simpl. split; [done|]. eauto.
Qed.

Lemma jpeg_finish_compress_spec c w :
  writing buf size c -> P call_finish_compress ->
  advances P buf size c w (fun c' => c')
    (fun c' => exists r, finished buf size c' r)
    (jpeg_finish_compress E c w).
Proof.
  intros Hw He. unfold jpeg_finish_compress.
  eapply advances_bind; [apply advances_log; done|].
  intros [] w1 _ _ _.
  eapply advances_bind; [apply advances_engine_answer; done|].
  intros bs w2 _ _ _. cbv beta.
  eapply advances_bind with (QA := fun _ => True);
    [eapply advances_weaken; [apply emit_bytes_spec; done|done]|].
  intros c1 w3 _ _ Hw1. cbv beta.
  destruct Hw1 as (p & d & cur & free & Hd & Hl & (Hi & Ht) & Hb & Hs & Hcur & Hfree & Hinv).
  assert (Hobj : dest_obj c1 = Some d) by (unfold dest_obj; by rewrite Hd).
  rewrite Hobj, Ht. cbn [call_dest_void]. unfold term_destination.
  rewrite Hd, Hobj. unfold term_destination_obj. rewrite Hfree.
  simpl. split; [eapply set_block_same_params; eauto|].
  split; [|split; [apply extends_refl|]].
  - exists p. eexists. exists cur, free.
    unfold set_block, set_dest_mem; simpl.
    split; [done|]. split; [apply lookup_insert_eq|]. simpl.
    repeat (split; [done|]). done.
  - exists (C.to_ulong (buffer_size d - free)). eexists. exists free.
    unfold dest_obj, set_block, set_dest_mem; simpl. rewrite Hd.
    split; [apply lookup_insert_eq|]. simpl. rewrite Hs.
    repeat (split; [done|]). intros H0. apply Hinv. lia.
Qed.

End Compression.

(** ** [jpeg_memory_dest] *)

Section Rebind.

Lemma jpeg_memory_dest_same_params c buf size :
  has_adapter c -> same_params c (fst (jpeg_memory_dest c buf size)).
Proof.
  intros (p & d & Hd & Hl & Hw). unfold jpeg_memory_dest. rewrite Hd. simpl.
  unfold same_params; simpl. repeat split; try done. apply dom_alter_L.
Qed.

Lemma jpeg_memory_dest_bound c buf size :
  has_adapter c -> bound_to buf size (fst (jpeg_memory_dest c buf size)).
Proof.
  intros (p & d & Hd & Hl & Hw). unfold jpeg_memory_dest. rewrite Hd. simpl.
  exists p, (rebind_dest buf size d). simpl.
  split; [done|]. split; [by rewrite lookup_alter_eq, Hl|]. done.
Qed.

Lemma jpeg_memory_dest_fresh c buf size :
  dest c = None -> bound_to buf size (fst (jpeg_memory_dest c buf size)).
Proof.
  intros Hd. unfold jpeg_memory_dest. rewrite Hd. simpl.
  exists (pool_brk (mem c)), (fresh_dest buf size). simpl.
  split; [done|]. split; [apply lookup_insert_eq|]. done.
Qed.

Lemma bound_to_has_adapter buf size c : bound_to buf size c -> has_adapter c.
Proof. intros (p & d & ? & ? & ? & _). exists p, d. done. Qed.

Lemma writing_has_adapter buf size c : writing buf size c -> has_adapter c.
Proof. intros (p & d & ? & ? & ? & ? & ? & _). exists p, d. done. Qed.

End Rebind.

(** ** [YuvEncoder::Encode] *)

Section EncodeLoop.

Context (E : engine) (buf size : Z) (width H Y U V : Z).

Let P := encode_batch_event Y U V width H.

Lemma Encode_loop_spec fuel : forall c w,
  writing buf size c -> image_height c = H -> 0 <= next_scanline c ->
  advances P buf size c w (fun c' => c') (fun _ => True)
    (YuvEncoder.Encode_loop E fuel width Y U V c w).
Proof.
  induction fuel as [|fuel IH]; intros c w Hw Hh Hn;
    cbn [YuvEncoder.Encode_loop];
    destruct (next_scanline c <? image_height c) eqn:Hlt.
  - simpl. split; [done|]. apply extends_refl.
  - apply (advances_ret P buf size c); auto using same_params_refl.
  - apply Z.ltb_lt in Hlt.
    eapply advances_bind.
    { apply jpeg_write_raw_data_spec; [done|].
      unfold P. simpl. rewrite Hh in *. split; [lia|]. done. }
    intros [lines c1] w1 (Hn1 & _) Hp Hw1. simpl in *.
    eapply advances_weaken; [apply IH|done].
    + done.
    + destruct Hp as (_&_&_&_&Hh1&_). congruence.
    + rewrite Hn1. apply to_uint_range.
  - apply (advances_ret P buf size c); auto using same_params_refl.
Qed.

End EncodeLoop.

Section EncodeSpec.

Context (E : engine).

Lemma Encode_spec fuel enc data dst size w :
  has_adapter (YuvEncoder.cinfo enc) ->
  let W := image_width (YuvEncoder.cinfo enc) in
  let H := image_height (YuvEncoder.cinfo enc) in
  advances
    (encode_batch_event (Encode_Y data) (Encode_U data W H) (Encode_V data W H) W H)
    dst size (YuvEncoder.cinfo enc) w
    (fun r => YuvEncoder.cinfo (snd r))
    (fun r => finished dst size (YuvEncoder.cinfo (snd r)) (fst r))
    (YuvEncoder.Encode E fuel enc data dst size w).
Proof.
  intros Ha W H. unfold YuvEncoder.Encode.
  pose proof (jpeg_memory_dest_same_params _ dst size Ha) as Hp1.
  pose proof (jpeg_memory_dest_bound _ dst size Ha) as Hb1.
  set (c1 := fst (jpeg_memory_dest (YuvEncoder.cinfo enc) dst size)) in *.
  eapply advances_from; [exact Hp1 | apply extends_refl |].
  eapply advances_bind; [apply jpeg_start_compress_spec; done|].
  intros c2 w2 Hn2 Hp2 Hw2. cbv beta zeta. cbv beta in Hn2.
  assert (HW : image_width c2 = W).
  { destruct Hp1 as (_&_&_&Hx&_), Hp2 as (_&_&_&Hy&_). unfold W. congruence. }
  assert (HH : image_height c2 = H).
  { destruct Hp1 as (_&_&_&_&Hx&_), Hp2 as (_&_&_&_&Hy&_). unfold H. congruence. }
  rewrite HW, HH.
  eapply advances_bind; [apply Encode_loop_spec; [done|done|lia]|].
  intros c3 w3 _ Hp3 Hw3. cbv beta.
  eapply advances_bind; [apply jpeg_finish_compress_spec; done|].
  intros c4 w4 (r & Hfin) Hp4 Hw4. cbv beta.
  pose proof Hfin as (d & free & Hobj & Hb & Hs & Hf & Hr & Hv & Hrange).
  rewrite Hobj.
  apply (advances_ret _ dst size (data_size d, {| YuvEncoder.cinfo := c4 |}));
    simpl; [apply same_params_refl|done|].
  rewrite Hr. done.
Qed.

End EncodeSpec.

(** ** Loops and their iteration budget *)

Section Fuel.

Lemma bind_Halted_inv {A B} (m : M A) (k : A -> M B) w h w' :
  bind m k w = Halted h w' ->
  m w = Halted h w' \/ exists a w1, m w = Returned a w1 /\ k a w1 = Halted h w'.
Proof.
  unfold bind. destruct (m w) as [a w1|h1 w1]; intros Hk.
  - right. eauto.
  - left. injection Hk as -> ->. reflexivity.
Qed.

Lemma loop_free_bind {A B} (m : M A) (k : A -> M B) :
  loop_free m -> (forall a, loop_free (k a)) -> loop_free (bind m k).
Proof.
  intros Hm Hk w h w' Hb.
  apply bind_Halted_inv in Hb as [Hb|(a & w1 & _ & Hb)].
  - eapply Hm; eauto.
  - eapply Hk; eauto.
Qed.

Lemma loop_free_ret {A} (a : A) : loop_free (ret a).
Proof. intros w h w' Hr. discriminate. Qed.

Lemma loop_free_log e : loop_free (log e).
Proof. intros w h w' Hr. discriminate. Qed.

Lemma loop_free_get_ram : loop_free get_ram.
Proof. intros w h w' Hr. discriminate. Qed.

Lemma loop_free_put_ram m : loop_free (put_ram m).
Proof. intros w h w' Hr. discriminate. Qed.

Lemma loop_free_print s : loop_free (print_cerr s).
Proof. intros w h w' Hr. discriminate. Qed.

Lemma loop_free_halt {A} h : h <> OutOfFuel -> loop_free (@halt_with A h).
Proof. intros Hh w h' w' Hr. injection Hr as <- _. done. Qed.

Lemma loop_free_engine_answer {A} (o : option A) : loop_free (engine_answer o).
Proof.
  destruct o; [apply loop_free_ret | by apply loop_free_halt].
Qed.

Create HintDb loopfree.
#[local] Hint Resolve loop_free_ret loop_free_log loop_free_get_ram
  loop_free_put_ram loop_free_print loop_free_engine_answer : loopfree.
#[local] Hint Extern 2 (loop_free (halt_with _)) =>
  (apply loop_free_halt; discriminate) : loopfree.
#[local] Hint Extern 3 (loop_free (bind _ _)) =>
  (apply loop_free_bind; [|intros ?]) : loopfree.

Lemma loop_free_init_destination c : loop_free (init_destination c).
Proof.
  unfold init_destination. destruct (dest c), (dest_obj c); auto with loopfree.
Qed.

Lemma loop_free_term_destination c : loop_free (term_destination c).
Proof.
  unfold term_destination.
  destruct (dest c), (dest_obj c) as [d|]; auto with loopfree.
  destruct (term_destination_obj d); auto with loopfree.
Qed.

Lemma loop_free_call_dest_void f c : loop_free (call_dest_void f c).
Proof.
  destruct f; [apply loop_free_init_destination|apply loop_free_term_destination].
Qed.

Lemma loop_free_emit_byte c b : loop_free (emit_byte c b).
Proof.
  unfold emit_byte.
  destruct (dest c) as [z|], (dest_obj c) as [d|]; auto with loopfree.
  destruct (next_output_byte (pub d)) as [z0|],
    (free_in_buffer (pub d)) as [f|]; auto with loopfree.
  assert (loop_free (push_byte c z d z0 f b))
    by (unfold push_byte; auto 6 with loopfree).
  destruct (f =? 0); [|done].
  destruct (empty_output_buffer_p (pub d)). cbn [call_dest_bool].
  unfold empty_output_buffer.
  apply loop_free_bind; [auto with loopfree|].
  intros []; auto with loopfree.
Qed.

Lemma loop_free_emit_bytes bs : forall c, loop_free (emit_bytes c bs).
Proof.
  induction bs as [|b bs IH]; intros c; cbn [emit_bytes].
  - auto with loopfree.
  - apply loop_free_bind; [apply loop_free_emit_byte|auto].
Qed.

Lemma loop_free_start_compress E c : loop_free (jpeg_start_compress E c).
Proof.
  unfold jpeg_start_compress.
  apply loop_free_bind; [auto with loopfree|]. intros _.
  destruct (dest_obj c); [|auto with loopfree].
  apply loop_free_bind; [apply loop_free_call_dest_void|]. intros c1.
  apply loop_free_bind; [auto with loopfree|]. intros bs.
  apply loop_free_bind; [apply loop_free_emit_bytes|]. auto with loopfree.
Qed.


Lemma loop_free_finish_compress E c : loop_free (jpeg_finish_compress E c).
Proof.
  unfold jpeg_finish_compress.
  apply loop_free_bind; [auto with loopfree|]. intros _.
  apply loop_free_bind; [auto with loopfree|]. intros bs.
  apply loop_free_bind; [apply loop_free_emit_bytes|]. intros c1.
  destruct (dest_obj c1); [apply loop_free_call_dest_void|auto with loopfree].
Qed.


End Fuel.

(** ** Traces *)

Section Traces.

Context (P : jcall -> Prop).

Lemma follows_refl w : follows P w w.
Proof. split; [done|]. exists []. by rewrite app_nil_r. Qed.

Lemma follows_trans w1 w2 w3 :
  follows P w1 w2 -> follows P w2 w3 -> follows P w1 w3.
Proof.
  intros (Hi1 & r1 & Hc1 & Hp1) (Hi2 & r2 & Hc2 & Hp2).
  split; [congruence|]. exists (r1 ++ r2).
  rewrite Hc2, Hc1, app_assoc. split; [done|]. by apply Forall_app.
Qed.

Lemma follows_add_call w e : P e -> follows P w (add_call w e).
Proof. intros He. split; [done|]. exists [e]. auto. Qed.

Lemma final_world_bind {A B} (m : M A) (k : A -> M B) w :
  final_world (bind m k w) =
  match m w with
  | Returned a w1 => final_world (k a w1)
  | Halted _ w1 => w1
  end.
Proof. unfold bind. by destruct (m w). Qed.

Lemma traced_bind {A B} (m : M A) (k : A -> M B) :
  traced P m -> (forall a, traced P (k a)) -> traced P (bind m k).
Proof.
  intros Hm Hk w. rewrite final_world_bind.
  specialize (Hm w). destruct (m w) as [a w1|h w1]; simpl in Hm; [|done].
  eapply follows_trans; [exact Hm|apply Hk].
Qed.

Lemma traced_ret {A} (a : A) : traced P (ret a).
Proof. intros w. apply follows_refl. Qed.

Lemma traced_halt {A} h : traced P (@halt_with A h).
Proof. intros w. apply follows_refl. Qed.

Lemma traced_log e : P e -> traced P (log e).
Proof. intros He w. by apply follows_add_call. Qed.

Lemma traced_get_ram : traced P get_ram.
Proof. intros w. apply follows_refl. Qed.

Lemma traced_put_ram m : traced P (put_ram m).
Proof. intros w. split; [done|]. exists []. simpl. by rewrite app_nil_r. Qed.

Lemma traced_print s : traced P (print_cerr s).
Proof. intros w. split; [done|]. exists []. simpl. by rewrite app_nil_r. Qed.

Lemma traced_engine_answer {A} (o : option A) : traced P (engine_answer o).
Proof. destruct o; [apply traced_ret|apply traced_halt]. Qed.

End Traces.

Create HintDb traced.
#[local] Hint Resolve traced_ret traced_halt traced_get_ram traced_put_ram
  traced_print traced_engine_answer : traced.
#[local] Hint Extern 1 (traced _ (log _)) => (apply traced_log; exact I) : traced.
#[local] Hint Extern 3 (traced _ (bind _ _)) =>
  (apply traced_bind; [|intros ?]) : traced.

Section CompressTraces.

Let any : jcall -> Prop := fun _ => True.

Lemma traced_call_dest_void f c : traced any (call_dest_void f c).
Proof.
  destruct f; simpl; [unfold init_destination|unfold term_destination];
    destruct (dest c), (dest_obj c) as [d|]; auto with traced.
  destruct (term_destination_obj d); auto with traced.
Qed.

Lemma traced_emit_byte c b : traced any (emit_byte c b).
Proof.
  unfold emit_byte.
  destruct (dest c) as [z|], (dest_obj c) as [d|]; auto with traced.
  destruct (next_output_byte (pub d)) as [z0|],
    (free_in_buffer (pub d)) as [f|]; auto with traced.
  assert (traced any (push_byte c z d z0 f b))
    by (unfold push_byte; auto 6 with traced).
  destruct (f =? 0); [|done].
  destruct (empty_output_buffer_p (pub d)). cbn [call_dest_bool].
  unfold empty_output_buffer.
  apply traced_bind; [auto with traced|].
  intros []; auto with traced.
Qed.

Lemma traced_emit_bytes bs : forall c, traced any (emit_bytes c bs).
Proof.
  induction bs as [|b bs IH]; intros c; cbn [emit_bytes].
  - auto with traced.
  - apply traced_bind; [apply traced_emit_byte|auto].
Qed.

(** What [jpeg_start_compress] does after its call is recorded. *)
Lemma jpeg_start_compress_unfold E c w :
  exists body : M jpeg_compress_struct,
    traced any body /\
    forall B (k : jpeg_compress_struct -> M B),
      bind (jpeg_start_compress E c) k w
      = bind body k (add_call w (call_start_compress (dest c) (dest_obj c))).
Proof.
  eexists. split; [|intros B k; unfold jpeg_start_compress, bind at 1 2;
                    cbn [log]; reflexivity].
  destruct (dest_obj c); [|auto with traced].
  apply traced_bind; [apply traced_call_dest_void|]. intros c1.
  apply traced_bind; [auto with traced|]. intros bs.
  apply traced_bind; [apply traced_emit_bytes|]. auto with traced.
Qed.

Lemma traced_write_raw_data E c planes n :
  traced any (jpeg_write_raw_data E c planes n).
Proof.
  unfold jpeg_write_raw_data.
  apply traced_bind; [auto with traced|]. intros _.
  apply traced_bind; [auto with traced|]. intros m.
  apply traced_bind; [auto with traced|]. intros [lines bs].
  apply traced_bind; [apply traced_emit_bytes|]. auto with traced.
Qed.

Lemma traced_finish_compress E c : traced any (jpeg_finish_compress E c).
Proof.
  unfold jpeg_finish_compress.
  apply traced_bind; [auto with traced|]. intros _.
  apply traced_bind; [auto with traced|]. intros bs.
  apply traced_bind; [apply traced_emit_bytes|]. intros c1.
  destruct (dest_obj c1); [apply traced_call_dest_void|auto with traced].
Qed.

Lemma traced_Encode_loop E width Y U V fuel :
  forall c, traced any (YuvEncoder.Encode_loop E fuel width Y U V c).
Proof.
  induction fuel as [|fuel IH]; intros c; cbn [YuvEncoder.Encode_loop];
    destruct (next_scanline c <? image_height c); auto with traced.
  apply traced_bind; [apply traced_write_raw_data|]. intros r. apply IH.
Qed.

End CompressTraces.

(** * The claims *)

(** ** Probing and the capacity check of the decoders *)

(** Runs the state-passing steps of an action whose engine answers are
    known. *)
Ltac run :=
  cbv [bind ret log halt_with get_ram put_ram print_cerr update_info
       write_info_width write_info_height write_info_components
       write_info_colorSpace add_call engine_answer
       jpeg_destroy_decompress jpeg_abort_decompress
       probed_world aborted_world];
  cbn [ram cerr info_cell calls width height components colorSpace fst snd];
  rewrite <- ?app_assoc; cbn [app].

(** Brings the first primitive step of an action to the front and runs
    it. *)
Ltac step :=
  repeat first
    [ rewrite bind_assoc | rewrite bind_ret | rewrite bind_log
    | progress cbn [engine_answer emit_bytes] ].

Section Decoders.

Context (E : engine).

Lemma jpeg_read_header_run c s w :
  src c = Some s ->
  jpeg_read_header E c true w =
  let (rc, h) := eng_read_header E s true (ram w) in
  Returned (rc, if rc =? JPEG_HEADER_OK then apply_header c h else c)
    (add_call w call_read_header).
Proof.
  intros Hs. unfold jpeg_read_header. rewrite Hs, bind_log.
  unfold bind, get_ram. cbn [ram add_call].
  destruct (eng_read_header E s true (ram w)) as [rc h].
  unfold ret. by destruct (rc =? JPEG_HEADER_OK).
Qed.

Lemma jpeg_start_decompress_run c w :
  jpeg_start_decompress E c w =
  match eng_start_decompress E c (ram w) with
  | Some (ow, oh, oc) =>
    Returned (set_output c ow oh oc 0) (add_call w call_start_decompress)
  | None => Halted ErrorExit (add_call w call_start_decompress)
  end.
Proof.
  unfold jpeg_start_decompress. rewrite bind_log.
  unfold bind, get_ram, engine_answer. cbn [ram add_call].
  by destruct (eng_start_decompress E c (ram w)) as [[[ow oh] oc]|].
Qed.

(** The common opening of the three decoding functions. *)
Lemma decoder_prologue {B} jpegData jpegSize w rc h
    (k : Z * jpeg_decompress_struct -> M B) :
  eng_read_header E (bound_source jpegData jpegSize) true (ram w) = (rc, h) ->
  bind jpeg_create_decompress
    (fun c0 => bind (jpeg_read_header E (jpeg_memory_src c0 jpegData jpegSize) true) k) w
  = k (rc, if rc =? JPEG_HEADER_OK
           then apply_header (jpeg_memory_src fresh_decompress jpegData jpegSize) h
           else jpeg_memory_src fresh_decompress jpegData jpegSize)
      (add_call (add_call w call_create_decompress) call_read_header).
Proof.
  intros Hhdr. unfold jpeg_create_decompress.
  rewrite bind_assoc, bind_log, bind_ret.
  unfold bind at 1.
  rewrite (jpeg_read_header_run _ (bound_source jpegData jpegSize)) by done.
  cbn [ram add_call]. by rewrite Hhdr.
Qed.

Lemma bind_start_decompress {B} c w ow oh oc
    (k : jpeg_decompress_struct -> M B) :
  eng_start_decompress E c (ram w) = Some (ow, oh, oc) ->
  bind (jpeg_start_decompress E c) k w
  = k (set_output c ow oh oc 0) (add_call w call_start_decompress).
Proof.
  intros Hs. unfold bind at 1. rewrite jpeg_start_decompress_run. by rewrite Hs.
Qed.

(** C6.  [GetJpegInfo] on a stream whose header the engine does not accept
    (a return code other than [JPEG_HEADER_OK], as for a truncated or
    malformed header) returns 0 and leaves the caller's [DecodeInfo] as it
    was; on [JPEG_HEADER_OK] it returns 1 and fills width, height,
    component count and colour space from the header fields.  In both
    cases the only engine calls are create, read-header and destroy: no
    pixel is decoded and no memory is written. *)
Theorem GetJpegInfo_probe jpegData jpegSize w rc h :
  eng_read_header E (bound_source jpegData jpegSize) true (ram w) = (rc, h) ->
  (rc <> JPEG_HEADER_OK ->
   GetJpegInfo E jpegData jpegSize w = Returned 0 (probed_world w (info_cell w))) /\
  (rc = JPEG_HEADER_OK ->
   GetJpegInfo E jpegData jpegSize w =
   Returned 1
     (probed_world w
        {| width := C.to_int (hdr_image_width h);
           height := C.to_int (hdr_image_height h);
           components := hdr_num_components h;
           colorSpace := int_of_color_space (hdr_jpeg_color_space h) |})).
Proof.
  intros Hhdr.
  unfold GetJpegInfo. rewrite (decoder_prologue _ _ _ _ _ _ Hhdr).
  cbn [fst snd]. split.
  - intros Hrc. apply Z.eqb_neq in Hrc. rewrite Hrc. cbn [negb]. by run.
  - intros ->. cbn [Z.eqb JPEG_HEADER_OK Pos.eqb negb]. by run.
Qed.


Lemma jpeg_read_raw_data_run c planes n w :
  jpeg_read_raw_data E c planes n w =
  match eng_read_raw_data E c (ram w) with
  | Some (lines, (ys, us, vs)) =>
    Returned
      (lines,
       set_output c (output_width c) (output_height c) (output_components c)
         (C.to_uint (output_scanline c + lines)))
      {| ram := store_rows (rows_v planes) vs
                  (store_rows (rows_u planes) us
                     (store_rows (rows_y planes) ys (ram w)));
         cerr := cerr w; info_cell := info_cell w;
         calls := calls w ++ [call_read_raw_data (output_scanline c) planes n] |}
  | None =>
    Halted ErrorExit
      (add_call w (call_read_raw_data (output_scanline c) planes n))
  end.
Proof.
  unfold jpeg_read_raw_data. rewrite bind_log.
  unfold bind, get_ram, engine_answer. cbn [ram add_call].
  by destruct (eng_read_raw_data E c (ram w)) as [[lines [[ys us] vs]]|].
Qed.

Lemma traced_finish_decompress P c :
  P call_finish_decompress -> traced P (jpeg_finish_decompress E c).
Proof.
  intros He. unfold jpeg_finish_decompress.
  apply traced_bind; [by apply traced_log|]. intros _.
  apply traced_bind; [apply traced_get_ram|]. intros m.
  destruct (eng_finish_decompress E c m); [apply traced_ret|apply traced_halt].
Qed.

(** The batch loop of [DecodeToI420]: every batch it hands to the engine
    is the one [DecodeToI420_batch] computes for the current scanline. *)
Lemma DecodeToI420_loop_traced P width height Y U V oh fuel :
  (forall s r, rows_wf r -> 0 <= s < oh ->
     P (call_read_raw_data s (DecodeToI420_batch s width height Y U V r) 16)) ->
  forall planes c,
    rows_wf planes -> output_height c = oh -> 0 <= output_scanline c ->
    traced P (DecodeToI420_loop E fuel width height Y U V planes c).
Proof.
  intros HP.
  induction fuel as [|fuel IH]; intros planes c Hr Hh Hn w;
    cbn [DecodeToI420_loop];
    destruct (output_scanline c <? output_height c) eqn:Hlt;
    try apply follows_refl.
  apply Z.ltb_lt in Hlt.
  rewrite final_world_bind, jpeg_read_raw_data_run.
  assert (He : P (call_read_raw_data (output_scanline c)
                    (DecodeToI420_batch (output_scanline c) width height Y U V planes) 16))
    by (apply HP; [done|lia]).
  destruct (eng_read_raw_data E c (ram w)) as [[lines [[ys us] vs]]|];
    [|by apply follows_add_call].
  cbn [snd].
  eapply follows_trans; [|apply IH].
  - split; [done|]. eexists. split; [reflexivity|]. auto.
  - apply DecodeToI420_rows_wf. done.
  - done.
  - cbn [output_scanline set_output]. apply to_uint_range.
Qed.

(** [DecodeToI420] past the header: the caller's [DecodeInfo] and the
    engine calls of the whole run. *)
Lemma DecodeToI420_follows P fuel jpegData jpegSize output outputSize w h ow oh oc :
  eng_read_header E (bound_source jpegData jpegSize) true (ram w)
    = (JPEG_HEADER_OK, h) ->
  eng_start_decompress E (I420_request jpegData jpegSize h) (ram w)
    = Some (ow, oh, oc) ->
  (forall e, is_read_raw_data e = false -> P e) ->
  (forall s r, rows_wf r -> 0 <= s < oh ->
     P (call_read_raw_data s
          (DecodeToI420_batch s (C.to_int ow) (C.to_int oh) output
             (output + I420_sizeY (C.to_int ow) (C.to_int oh))
             (output + I420_sizeY (C.to_int ow) (C.to_int oh)
                     + I420_sizeU (C.to_int ow) (C.to_int oh)) r) 16)) ->
  let o := DecodeToI420 E fuel jpegData jpegSize output outputSize w in
  info_cell (final_world o) =
    {| width := C.to_int ow; height := C.to_int oh; components := 3;
       colorSpace := int_of_color_space JCS_YCbCr |} /\
  exists rest, calls (final_world o) = calls w ++ rest /\ Forall P rest.
Proof.
  intros Hhdr Hstart Hother Hbatch o. subst o.
  unfold DecodeToI420. rewrite (decoder_prologue _ _ _ _ _ _ Hhdr).
  cbn [fst snd Z.eqb JPEG_HEADER_OK Pos.eqb negb].
  fold (I420_request jpegData jpegSize h).
  rewrite (bind_start_decompress _ _ ow oh oc) by exact Hstart.
  unfold write_info_width, write_info_height, write_info_components,
    write_info_colorSpace.
  rewrite !bind_update_info.
  cbn [output_width output_height out_color_space set_output I420_request
       set_out_color_space ram cerr info_cell calls add_call
       width height components colorSpace].
  match goal with |- context [final_world (?m ?w0)] =>
    assert (Hf : follows P w0 (final_world (m w0))); [|
      destruct Hf as (Hi & rest & Hc & HP); rewrite Hi, Hc; split; [done|];
      cbn [calls add_call info_cell]; rewrite <- !app_assoc;
      eexists; split; [reflexivity|];
      repeat (apply Forall_app; split; [repeat constructor; by apply Hother|]);
      exact HP]
  end.
  destruct (I420_totalSize (C.to_int ow) (C.to_int oh) >? outputSize).
  - apply (traced_bind P); [apply traced_log; by apply Hother|]. intros _.
    apply (traced_bind P); [apply traced_log; by apply Hother|]. intros _.
    apply traced_ret.
  - apply (traced_bind P).
    { apply DecodeToI420_loop_traced with (oh := oh);
        auto using blank_rows_wf. cbn. lia. }
    intros c4.
    apply (traced_bind P); [apply traced_finish_decompress; by apply Hother|].
    intros _.
    apply (traced_bind P); [apply traced_log; by apply Hother|]. intros _.
    apply traced_ret.
Qed.


(** C10.  Once [DecodeToI420] is past the header (the header is accepted
    and decompression has started), the caller's [DecodeInfo] reports 3
    components and the YCbCr colour space, whatever component count and
    colour space the header [h] of the stream declares and however the
    call ends. *)
Theorem DecodeToI420_info_fixed fuel jpegData jpegSize output outputSize
    w h ow oh oc :
  eng_read_header E (bound_source jpegData jpegSize) true (ram w)
    = (JPEG_HEADER_OK, h) ->
  eng_start_decompress E (I420_request jpegData jpegSize h) (ram w)
    = Some (ow, oh, oc) ->
  let w' := final_world (DecodeToI420 E fuel jpegData jpegSize output outputSize w) in
  components (info_cell w') = 3 /\
  colorSpace (info_cell w') = int_of_color_space JCS_YCbCr.
Proof.
  intros Hhdr Hstart.
  destruct (DecodeToI420_follows (fun _ => True) fuel jpegData jpegSize
              output outputSize w h ow oh oc Hhdr Hstart
              ltac:(done) ltac:(done)) as (Hi & _).
  cbv zeta. by rewrite Hi.
Qed.



(** C1 (as amended).  When the header is accepted and the size the decoder
    computes from the output geometry exceeds the supplied capacity,
    [DecodeToGray] and [DecodeToI420] abort the decompression
    ([jpeg_abort_decompress], then [jpeg_destroy_decompress], with no row
    read), return 0 and write no byte of the output; the caller's
    [DecodeInfo] has by then been filled with the output width, height,
    component count and colour space. *)
Theorem insufficient_capacity_aborts fuel jpegData jpegSize output outputSize
    w h ow oh oc :
  eng_read_header E (bound_source jpegData jpegSize) true (ram w)
    = (JPEG_HEADER_OK, h) ->
  (eng_start_decompress E (Gray_request jpegData jpegSize h) (ram w)
     = Some (ow, oh, oc) ->
   outputSize
     < Gray_totalSize (set_output (Gray_request jpegData jpegSize h) ow oh oc 0) ->
   DecodeToGray E fuel jpegData jpegSize output outputSize w =
   Returned 0
     (aborted_world w
        {| width := C.to_int ow; height := C.to_int oh; components := oc;
           colorSpace := int_of_color_space JCS_GRAYSCALE |})) /\
  (eng_start_decompress E (I420_request jpegData jpegSize h) (ram w)
     = Some (ow, oh, oc) ->
   outputSize < I420_totalSize (C.to_int ow) (C.to_int oh) ->
   DecodeToI420 E fuel jpegData jpegSize output outputSize w =
   Returned 0
     (aborted_world w
        {| width := C.to_int ow; height := C.to_int oh; components := 3;
           colorSpace := int_of_color_space JCS_YCbCr |})).
Proof.
  intros Hhdr. split; intros Hstart Hcap.
  - unfold DecodeToGray. rewrite (decoder_prologue _ _ _ _ _ _ Hhdr).
    cbn [fst snd Z.eqb JPEG_HEADER_OK Pos.eqb negb].
    fold (Gray_request jpegData jpegSize h).
    rewrite (bind_start_decompress _ _ ow oh oc) by exact Hstart.
    run.
    rewrite Z.gtb_ltb. apply Z.ltb_lt in Hcap. rewrite Hcap. by run.
  - unfold DecodeToI420. rewrite (decoder_prologue _ _ _ _ _ _ Hhdr).
    cbn [fst snd Z.eqb JPEG_HEADER_OK Pos.eqb negb].
    fold (I420_request jpegData jpegSize h).
    rewrite (bind_start_decompress _ _ ow oh oc) by exact Hstart.
    run. cbn [output_width output_height out_color_space set_output].
    rewrite Z.gtb_ltb. apply Z.ltb_lt in Hcap. rewrite Hcap. by run.
Qed.

End Decoders.

(** ** The encoder session *)

Section Session.

Context (E : engine).



(** Every session the constructor builds has its adapter, whatever the
    engine's defaults. *)
Lemma new_has_adapter width height quality bufferSize w enc w' :
  YuvEncoder.new E width height quality bufferSize w = Returned enc w' ->
  has_adapter (YuvEncoder.cinfo enc).
Proof.
  unfold YuvEncoder.new, jpeg_create_compress, jpeg_set_defaults,
    jpeg_set_quality.
  step. intros Hrun. injection Hrun as <- _. cbn [YuvEncoder.cinfo].
  exists 4096, (fresh_dest C.nullptr (C.to_ulong bufferSize)).
  split; [reflexivity|]. split; [apply lookup_insert_eq|]. done.
Qed.

(** A returning [Encode] leaves the session with its adapter. *)
Lemma Encode_keeps_adapter fuel enc data dst size w r enc' w' :
  has_adapter (YuvEncoder.cinfo enc) ->
  YuvEncoder.Encode E fuel enc data dst size w = Returned (r, enc') w' ->
  has_adapter (YuvEncoder.cinfo enc').
Proof.
  intros Ha Hrun.
  pose proof (Encode_spec E fuel enc data dst size w Ha) as Hspec.
  cbv zeta in Hspec. rewrite Hrun in Hspec.
  destruct Hspec as (_ & Hw & _). by eapply writing_has_adapter.
Qed.








Lemma traced_Encode_tail fuel data c2 :
  traced (fun _ => True)
    (let* c3 := YuvEncoder.Encode_loop E fuel (image_width c2) (Encode_Y data)
                  (Encode_U data (image_width c2) (image_height c2))
                  (Encode_V data (image_width c2) (image_height c2)) c2 in
     let* c4 := jpeg_finish_compress E c3 in
     match dest_obj c4 with
     | Some d => ret (data_size d, {| YuvEncoder.cinfo := c4 |})
     | None => halt_with Undefined
     end).
Proof.
  apply traced_bind; [apply traced_Encode_loop|]. intros c3.
  apply traced_bind; [apply traced_finish_compress|]. intros c4.
  destruct (dest_obj c4); [apply traced_ret|apply traced_halt].
Qed.

(** C7.  On a compressor that already has an adapter, [jpeg_memory_dest]
    hands back the same adapter object: the pointer and the pool are as
    before (nothing is allocated), and the object differs from what it
    was only in its buffer pointer, its capacity and its written size,
    which is 0; the public part with the three callback slots is the
    same.  [YuvEncoder::Encode] does this with the supplied destination
    before anything else: its first engine call is
    [jpeg_start_compress], on the compressor so rebound. *)
Theorem rebind_reuses_adapter c p d buf size :
  dest c = Some p -> small_blocks (mem c) !! p = Some d ->
  let c' := fst (jpeg_memory_dest c buf size) in
  let d' := {| pub := pub d; buffer := buf; buffer_size := size;
               data_size := 0 |} in
  snd (jpeg_memory_dest c buf size) = p /\
  dest c' = Some p /\
  pool_brk (mem c') = pool_brk (mem c) /\
  small_blocks (mem c') = <[p := d']> (small_blocks (mem c)) /\
  same_params c c' /\ next_scanline c' = next_scanline c /\
  forall fuel enc data w,
    YuvEncoder.cinfo enc = c ->
    exists rest,
      calls (final_world (YuvEncoder.Encode E fuel enc data buf size w))
      = calls w ++ call_start_compress (Some p) (Some d') :: rest.
Proof.
  intros Hd Hl c' d'.
  assert (Hblocks : small_blocks (mem c') = <[p := d']> (small_blocks (mem c))).
  { subst c'. unfold jpeg_memory_dest. rewrite Hd. simpl.
    apply map_eq. intros q. destruct (decide (p = q)) as [<-|Hne].
    - by rewrite lookup_alter_eq, lookup_insert_eq, Hl.
    - by rewrite lookup_alter_ne, lookup_insert_ne. }
  assert (Hdest : dest c' = Some p)
    by (subst c'; unfold jpeg_memory_dest; by rewrite Hd).
  split; [unfold jpeg_memory_dest; by rewrite Hd|].
  split; [exact Hdest|].
  split; [subst c'; unfold jpeg_memory_dest; by rewrite Hd|].
  split; [exact Hblocks|].
  split.
  { subst c'. unfold jpeg_memory_dest. rewrite Hd. simpl.
    unfold same_params; simpl. repeat split; try done. apply dom_alter_L. }
  split; [subst c'; unfold jpeg_memory_dest; by rewrite Hd|].
  intros fuel enc data w Henc. unfold YuvEncoder.Encode. rewrite Henc. fold c'.
  destruct (jpeg_start_compress_unfold E c' w) as (body & Hbody & Heq).
  rewrite Heq.
  assert (Hobj : dest_obj c' = Some d').
  { unfold dest_obj. rewrite Hdest, Hblocks. apply lookup_insert_eq. }
  rewrite Hdest, Hobj.
  destruct (traced_bind (fun _ => True) body _ Hbody
              (traced_Encode_tail fuel data)
              (add_call w (call_start_compress (Some p) (Some d'))))
    as (_ & rest & Hc & _).
  exists rest. rewrite Hc. simpl. by rewrite <- app_assoc.
Qed.

(** C9.  [SetMode] with argument 0 stores [JDCT_ISLOW] in the session,
    with any other argument [JDCT_FASTEST]; nothing else of the session
    changes, and every encode on the session that returns leaves the
    stored method in place. *)
Theorem SetMode_selects_dct enc mode :
  (mode = 0 ->
   YuvEncoder.SetMode E enc mode
   = {| YuvEncoder.cinfo := set_dct_method (YuvEncoder.cinfo enc) JDCT_ISLOW |} /\
   dct_method (YuvEncoder.cinfo (YuvEncoder.SetMode E enc mode)) = JDCT_ISLOW) /\
  (mode <> 0 ->
   YuvEncoder.SetMode E enc mode
   = {| YuvEncoder.cinfo := set_dct_method (YuvEncoder.cinfo enc) (JDCT_FASTEST E) |} /\
   dct_method (YuvEncoder.cinfo (YuvEncoder.SetMode E enc mode)) = JDCT_FASTEST E) /\
  (forall fuel data dst size w r enc' w',
     has_adapter (YuvEncoder.cinfo enc) ->
     YuvEncoder.Encode E fuel (YuvEncoder.SetMode E enc mode) data dst size w
       = Returned (r, enc') w' ->
     dct_method (YuvEncoder.cinfo enc')
     = if mode =? 0 then JDCT_ISLOW else JDCT_FASTEST E).
Proof.
  split; [|split].
  - intros ->. done.
  - intros Hne. apply Z.eqb_neq in Hne. unfold YuvEncoder.SetMode.
    by rewrite Hne.
  - intros fuel data dst size w r enc' w' Ha Hrun.
    assert (Ha' : has_adapter (YuvEncoder.cinfo (YuvEncoder.SetMode E enc mode))).
    { destruct Ha as (p & d & ? & ? & ?). exists p, d.
      unfold YuvEncoder.SetMode. by destruct (mode =? 0). }
    pose proof (Encode_spec E fuel _ data dst size w Ha') as Hspec.
    cbv zeta in Hspec. rewrite Hrun in Hspec.
    destruct Hspec as ((_&_&_&_&_&_&_&_&_&Hdct&_) & _).
    cbn [snd] in Hdct. rewrite Hdct.
    unfold YuvEncoder.SetMode. by destruct (mode =? 0).
Qed.


End Session.


(** ** The source adapter *)

(** C8 (as amended).  For a positive count [n], [skip_input_data] advances
    the read cursor by [n] bytes and takes [n] off the remaining length
    (in [size_t] arithmetic, which is the plain difference whenever [n]
    does not exceed the remaining length); for a count that is zero or
    negative it changes nothing. *)
Theorem skip_input_data_guarded c s n :
  src c = Some s ->
  (0 < n ->
   skip_input_data c n = Some (set_src c (Some (skip_input_data_obj s n))) /\
   next_input_byte (skip_input_data_obj s n) = next_input_byte s + n /\
   bytes_in_buffer (skip_input_data_obj s n)
     = C.to_ulong (bytes_in_buffer s - n) /\
   (n <= bytes_in_buffer s -> bytes_in_buffer s <= C.ULONG_MAX ->
    bytes_in_buffer (skip_input_data_obj s n) = bytes_in_buffer s - n) /\
   src_buffer (skip_input_data_obj s n) = src_buffer s /\
   src_buffer_size (skip_input_data_obj s n) = src_buffer_size s) /\
  (n <= 0 -> skip_input_data c n = Some c).
Proof.
  intros Hs. split.
  - intros Hn. unfold skip_input_data.
    replace (n >? 0) with true by (symmetry; apply Z.gtb_lt; lia).
    rewrite Hs. repeat split.
    intros Hle Hmax. simpl. apply to_ulong_small. lia.
  - intros Hn. unfold skip_input_data.
    replace (n >? 0) with false; [done|].
    symmetry. rewrite Z.gtb_ltb. apply Z.ltb_ge. lia.
Qed.


(** * The claims on a concrete run *)

Section ToyRuns.

Lemma toy_session_has_adapter : has_adapter (YuvEncoder.cinfo toy_session).
Proof.
  exists 4096, (fresh_dest C.nullptr 0).
  split; [reflexivity|]. split; [reflexivity|]. split; reflexivity.
Defined.


(** [toy_session] is the session the constructor builds. *)
Example toy_session_created :
  exists w', YuvEncoder.new toy_engine 32 20 80 0 toy_world
             = Returned toy_session w'.
Proof. eexists. vm_compute. reflexivity. Qed.

(** A complete encode of the toy session: two batches, six bytes. *)
Example toy_encode_returns :
  exists enc' w',
    YuvEncoder.Encode toy_engine 20 toy_session 3000 5000 100 toy_world
    = Returned (6, enc') w'.
Proof. eexists. eexists. vm_compute. reflexivity. Qed.

(** Complete runs of the two grayscale functions on the toy engine. *)
Example toy_gray_decode_returns :
  exists w', DecodeToGray toy_engine 20 1000 4 2000 640 toy_world
             = Returned 640 w'.
Proof. eexists. vm_compute. reflexivity. Qed.

Example toy_gray_encode_returns :
  exists w', EncodeGray8 toy_engine 20 3000 32 20 80 5000 100 toy_world
             = Returned 24 w'.
Proof. eexists. vm_compute. reflexivity. Qed.


(** Probing a stream that does not open with the start marker (the four
    bytes at address 1002). *)
Example toy_probe_malformed :
  GetJpegInfo toy_engine 1002 4 toy_world
  = Returned 0 (probed_world toy_world blank_info).
Proof. vm_compute. reflexivity. Qed.


(** The last batch of a 32 x 20 image, decoder side: rows 16 to 19 exist,
    the twelve slots after them alias row 19; chroma rows 8 and 9 exist,
    the six slots after them alias row 9. *)
Example toy_last_batch_clamps :
  DecodeToI420_batch 16 32 20 2000 2640 2800 blank_rows =
  {| rows_y := [Some 2512; Some 2544; Some 2576; Some 2608;
                Some 2608; Some 2608; Some 2608; Some 2608;
                Some 2608; Some 2608; Some 2608; Some 2608;
                Some 2608; Some 2608; Some 2608; Some 2608];
     rows_u := [Some 2768; Some 2784; Some 2784; Some 2784;
                Some 2784; Some 2784; Some 2784; Some 2784];
     rows_v := [Some 2928; Some 2944; Some 2944; Some 2944;
                Some 2944; Some 2944; Some 2944; Some 2944] |}.
Proof. reflexivity. Qed.

(** The same batch, encoder side: the loop stops at the height and the
    remaining slots are never assigned. *)
Example toy_last_batch_unpadded :
  Encode_batch 3000 3640 3800 32 20 16 =
  {| rows_y := [Some 3512; Some 3544; Some 3576; Some 3608;
                None; None; None; None; None; None; None; None;
                None; None; None; None];
     rows_u := [Some 3768; Some 3784; None; None; None; None; None; None];
     rows_v := [Some 3928; Some 3944; None; None; None; None; None; None] |}.
Proof. reflexivity. Qed.

(** The batches of a complete decode of the toy stream. *)
Example toy_decode_batches :
  map (fun e => match e with
                | call_read_raw_data s _ n => Some (s, n)
                | _ => None
                end)
      (calls (final_world (DecodeToI420 toy_engine 2 1000 4 2000 960 toy_world)))
  = [None; None; None; Some (0, 16); Some (16, 16); None; None].
Proof. vm_compute. reflexivity. Qed.


(** C1, the claim as written: on the toy stream with a capacity of 10
    bytes both decoders return 0, and the caller's [DecodeInfo] is no
    longer what it was. *)
Lemma capacity_failure_populates_info :
  10 < Gray_totalSize (set_output (Gray_request 1000 4 toy_header) 32 20 1 0) /\
  10 < I420_totalSize (C.to_int 32) (C.to_int 20) /\
  (exists w', DecodeToGray toy_engine 0 1000 4 2000 10 toy_world = Returned 0 w' /\
              info_cell w' <> info_cell toy_world) /\
  (exists w', DecodeToI420 toy_engine 0 1000 4 2000 10 toy_world = Returned 0 w' /\
              info_cell w' <> info_cell toy_world).
Proof.
  split; [vm_compute; reflexivity|]. split; [vm_compute; reflexivity|].
  split; eexists; (split; [vm_compute; reflexivity|simpl; discriminate]).
Qed.

Lemma insufficient_capacity_aborts_witness :
  DecodeToGray toy_engine 0 1000 4 2000 10 toy_world
  = Returned 0
      (aborted_world toy_world
         {| width := 32; height := 20; components := 1; colorSpace := 1 |}) /\
  DecodeToI420 toy_engine 0 1000 4 2000 10 toy_world
  = Returned 0
      (aborted_world toy_world
         {| width := 32; height := 20; components := 3; colorSpace := 3 |}).
Proof.
  split.
  - apply (proj1 (insufficient_capacity_aborts toy_engine 0 1000 4 2000 10
                    toy_world toy_header 32 20 1 eq_refl));
      vm_compute; reflexivity.
  - apply (proj2 (insufficient_capacity_aborts toy_engine 0 1000 4 2000 10
                    toy_world toy_header 32 20 3 eq_refl));
      vm_compute; reflexivity.
Defined.


Lemma DecodeToI420_info_fixed_witness :
  components (info_cell (final_world
    (DecodeToI420 toy_engine 2 1000 4 2000 960 toy_world))) = 3 /\
  colorSpace (info_cell (final_world
    (DecodeToI420 toy_engine 2 1000 4 2000 960 toy_world)))
    = int_of_color_space JCS_YCbCr.
Proof.
  apply (DecodeToI420_info_fixed toy_engine 2 1000 4 2000 960 toy_world
           toy_header 32 20 3); reflexivity.
Defined.

Lemma GetJpegInfo_probe_witness :
  GetJpegInfo toy_engine 1000 4 toy_world
  = Returned 1
      (probed_world toy_world
         {| width := 32; height := 20; components := 1; colorSpace := 1 |}) /\
  GetJpegInfo toy_engine 1000 3 toy_world
  = Returned 0 (probed_world toy_world blank_info).
Proof.
  split.
  - apply (proj2 (GetJpegInfo_probe toy_engine 1000 4 toy_world
                    JPEG_HEADER_OK toy_header eq_refl)). reflexivity.
  - apply (proj1 (GetJpegInfo_probe toy_engine 1000 3 toy_world
                    JPEG_SUSPENDED blank_header eq_refl)). discriminate.
Defined.





Lemma rebind_reuses_adapter_witness :
  snd (jpeg_memory_dest (YuvEncoder.cinfo toy_session) 5000 100) = 4096 /\
  pool_brk (mem (fst (jpeg_memory_dest (YuvEncoder.cinfo toy_session) 5000 100)))
  = pool_brk (mem (YuvEncoder.cinfo toy_session)).
Proof.
  pose proof (rebind_reuses_adapter toy_engine (YuvEncoder.cinfo toy_session)
                4096 (fresh_dest C.nullptr 0) 5000 100 eq_refl eq_refl) as H.
  cbv zeta in H. destruct H as (H1 & _ & H3 & _).
  split; [exact H1|exact H3].
Defined.

Lemma SetMode_selects_dct_witness :
  dct_method (YuvEncoder.cinfo (YuvEncoder.SetMode toy_engine toy_session 0))
  = JDCT_ISLOW /\
  dct_method (YuvEncoder.cinfo (YuvEncoder.SetMode toy_engine toy_session 7))
  = JDCT_FASTEST toy_engine.
Proof.
  split.
  - apply (proj1 (SetMode_selects_dct toy_engine toy_session 0)). reflexivity.
  - apply (proj1 (proj2 (SetMode_selects_dct toy_engine toy_session 7))).
    discriminate.
Defined.

(** C8, the claim as written: a negative count moves nothing, so the
    cursor is not advanced by the count and the remaining length is not
    decremented by it. *)
Lemma skip_negative_is_ignored :
  exists s',
    src <$> skip_input_data (jpeg_memory_src fresh_decompress 1000 4) (-1)
    = Some (Some s') /\
    next_input_byte s' <> 1000 + -1 /\
    bytes_in_buffer s' <> 4 - -1.
Proof.
  eexists. split; [reflexivity|]. split; simpl; discriminate.
Qed.

Lemma skip_input_data_guarded_witness :
  skip_input_data (jpeg_memory_src fresh_decompress 1000 4) 3
  = Some (set_src (jpeg_memory_src fresh_decompress 1000 4)
            (Some (skip_input_data_obj (bound_source 1000 4) 3))) /\
  next_input_byte (skip_input_data_obj (bound_source 1000 4) 3) = 1000 + 3 /\
  skip_input_data (jpeg_memory_src fresh_decompress 1000 4) 0
  = Some (jpeg_memory_src fresh_decompress 1000 4).
Proof.
  pose proof (skip_input_data_guarded
                (jpeg_memory_src fresh_decompress 1000 4)
                (bound_source 1000 4)) as H.
  destruct (H 3 eq_refl) as (Hpos & _).
  destruct (H 0 eq_refl) as (_ & Hzero).
  destruct (Hpos ltac:(lia)) as (H1 & H2 & _).
  split; [exact H1|]. split; [exact H2|]. apply Hzero. lia.
Defined.

End ToyRuns.

(** * Further properties of the code *)

(** ** Binding the destination *)

Section Binding.

Lemma rebind_dest_absorbs b1 s1 b2 s2 d :
  rebind_dest b2 s2 (rebind_dest b1 s1 d) = rebind_dest b2 s2 d.
Proof. reflexivity. Qed.

Lemma rebind_fresh_dest b1 s1 b2 s2 :
  rebind_dest b2 s2 (fresh_dest b1 s1) = fresh_dest b2 s2.
Proof. reflexivity. Qed.

(** X5.  Binding the destination twice is binding it to the last
    buffer: whether or not the compressor had an adapter, the compressor
    and the pointer after [jpeg_memory_dest] with one buffer and then with
    another are those of [jpeg_memory_dest] with the second buffer alone.
    In particular the second call allocates nothing, and nothing of the
    first binding is left. *)
Theorem jpeg_memory_dest_last_wins c b1 s1 b2 s2 :
  jpeg_memory_dest (fst (jpeg_memory_dest c b1 s1)) b2 s2
  = jpeg_memory_dest c b2 s2.
Proof.
  unfold jpeg_memory_dest. destruct (dest c) as [p|] eqn:Hd; simpl.
  - rewrite alter_alter_eq.
    rewrite (alter_ext (rebind_dest b2 s2 ∘ rebind_dest b1 s1)
               (rebind_dest b2 s2)); [done|].
    intros d _. apply rebind_dest_absorbs.
  - unfold set_block, set_dest_mem; simpl.
    rewrite alter_insert_eq, rebind_fresh_dest. done.
Qed.

End Binding.

(** ** Skipping input *)

Section Skipping.

(** X10.  Positive skips add up: skipping [n] and then [m] bytes leaves
    the source adapter as skipping [n + m] bytes at once does, wrap-around
    of the remaining length included.  The skip is not checked against
    the remaining length: a count beyond it moves the cursor past the
    end of the buffer and leaves a remaining length of 2^64 less the
    excess. *)
Theorem skip_input_data_adds c s n m :
  src c = Some s -> 0 < n -> 0 < m ->
  (skip_input_data c n ≫= fun c' => skip_input_data c' m)
  = skip_input_data c (n + m) /\
  (0 <= bytes_in_buffer s < n -> n - bytes_in_buffer s <= 2 ^ 64 ->
   exists s',
     src <$> skip_input_data c n = Some (Some s') /\
     next_input_byte s' = next_input_byte s + n /\
     src_buffer s' + src_buffer_size s' = src_buffer s + src_buffer_size s /\
     bytes_in_buffer s' = 2 ^ 64 - (n - bytes_in_buffer s)).
Proof.
  intros Hs Hn Hm. split.
  - unfold skip_input_data.
    replace (n >? 0) with true by (symmetry; apply Z.gtb_lt; lia).
    replace (n + m >? 0) with true by (symmetry; apply Z.gtb_lt; lia).
    rewrite Hs. simpl.
    replace (m >? 0) with true by (symmetry; apply Z.gtb_lt; lia).
    unfold set_src, skip_input_data_obj; simpl. do 3 f_equal.
    f_equal; [lia|].
    unfold C.to_ulong. rewrite Zminus_mod_idemp_l. f_equal. lia.
  - intros Hb Hex. unfold skip_input_data.
    replace (n >? 0) with true by (symmetry; apply Z.gtb_lt; lia).
    rewrite Hs. simpl. eexists. split; [reflexivity|]. simpl.
    split; [done|]. split; [done|].
    unfold C.to_ulong.
    replace (bytes_in_buffer s - n)
      with (2 ^ 64 - (n - bytes_in_buffer s) + (-1) * 2 ^ 64) by lia.
    rewrite Z.mod_add by lia. apply Z.mod_small. lia.
Qed.

End Skipping.

(** ** Row slots at the bottom edge *)

Section BottomEdge.

Variables (s W H Y U V : Z).
Hypothesis Hs : 0 <= s.
Hypothesis Hwrap : s + 16 <= 2 ^ 32.

Lemma Encode_rows_y_beyond n i r j :
  0 <= i -> i <= j -> H <= s + j ->
  rows_y (Encode_rows n i s W H Y U V r) !! Z.to_nat j = rows_y r !! Z.to_nat j.
Proof.
  revert i r. induction n as [|n IH]; intros i r Hi Hij Hj; simpl; [done|].
  destruct ((i <? 16) && (C.to_uint (s + i) <? H)) eqn:Hc; [|done].
  apply andb_true_iff in Hc as [Hi16 Hlt].
  apply Z.ltb_lt in Hi16, Hlt.
  rewrite to_uint_small in Hlt by (unfold C.UINT_MAX; lia).
  rewrite IH by lia.
  destruct (Z.rem i 2 =? 0); simpl; apply list_lookup_insert_ne; lia.
Qed.

Lemma Encode_rows_uv_beyond n i r k :
  0 <= i -> i <= 2 * k -> H <= s + 2 * k ->
  rows_u (Encode_rows n i s W H Y U V r) !! Z.to_nat k = rows_u r !! Z.to_nat k /\
  rows_v (Encode_rows n i s W H Y U V r) !! Z.to_nat k = rows_v r !! Z.to_nat k.
Proof.
  revert i r. induction n as [|n IH]; intros i r Hi Hik Hk; simpl; [done|].
  destruct ((i <? 16) && (C.to_uint (s + i) <? H)) eqn:Hc; [|done].
  apply andb_true_iff in Hc as [Hi16 Hlt].
  apply Z.ltb_lt in Hi16, Hlt.
  rewrite to_uint_small in Hlt by (unfold C.UINT_MAX; lia).
  destruct (IH (i + 1)
    (if Z.rem i 2 =? 0
     then set_uv (Z.quot i 2)
            (U + C.to_uint (C.to_uint (s + i) / 2 * (W / 2)))
            (V + C.to_uint (C.to_uint (s + i) / 2 * (W / 2)))
            (set_y i (Y + C.to_uint (C.to_uint (s + i) * W)) r)
     else set_y i (Y + C.to_uint (C.to_uint (s + i) * W)) r)
    ltac:(lia) ltac:(lia) Hk) as [Hu Hv].
  rewrite Hu, Hv. clear Hu Hv IH.
  destruct (Z.rem i 2 =? 0); simpl; [|done].
  rewrite Z.quot_div_nonneg by lia.
  assert (i / 2 < k) by (apply Z.div_lt_upper_bound; lia).
  assert (0 <= i / 2) by (apply Z.div_pos; lia).
  split; apply list_lookup_insert_ne; lia.
Qed.

End BottomEdge.

(** X11.  At the bottom edge the two planar loops differ.  The encoder
    stops assigning row pointers at the image height: in the batch that
    starts at scanline [s], every luma slot [i] with [s + i] at or past
    the height, and every chroma slot [k] with [s + 2 k] at or past it,
    is handed to the engine unassigned.  The decoder assigns all 16 luma
    and all 8 chroma slots of every batch, whatever the geometry and
    whatever the arrays held before. *)
Theorem bottom_edge_slots s W H Y U V :
  0 <= s -> s + 16 <= 2 ^ 32 ->
  (forall i, 0 <= i < 16 -> H <= s + i ->
     rows_y (Encode_batch Y U V W H s) !! Z.to_nat i = Some None) /\
  (forall k, 0 <= k < 8 -> H <= s + 2 * k ->
     rows_u (Encode_batch Y U V W H s) !! Z.to_nat k = Some None /\
     rows_v (Encode_batch Y U V W H s) !! Z.to_nat k = Some None) /\
  (forall r i, rows_wf r -> 0 <= i < 16 ->
     exists p, rows_y (DecodeToI420_batch s W H Y U V r) !! Z.to_nat i
               = Some (Some p)) /\
  (forall r k, rows_wf r -> 0 <= k < 8 ->
     exists pu pv,
       rows_u (DecodeToI420_batch s W H Y U V r) !! Z.to_nat k = Some (Some pu) /\
       rows_v (DecodeToI420_batch s W H Y U V r) !! Z.to_nat k = Some (Some pv)).
Proof.
  intros Hs Hwrap. split; [|split; [|split]].
  - intros i Hi Hpast. unfold Encode_batch.
    rewrite (Encode_rows_y_beyond s W H Y U V Hs Hwrap) by lia.
    unfold blank_rows. cbn [rows_y]. apply lookup_replicate_2. lia.
  - intros k Hk Hpast. unfold Encode_batch.
    destruct (Encode_rows_uv_beyond s W H Y U V Hs Hwrap 16 0 blank_rows k)
      as (-> & ->); try lia.
    unfold blank_rows. cbn [rows_u rows_v].
    split; apply lookup_replicate_2; lia.
  - intros r i Hr Hi.
    destruct (DecodeToI420_batch_entries s W H Y U V r i Hr Hi) as (Hy & _).
    eauto.
  - intros r k Hr Hk.
    destruct (DecodeToI420_batch_entries s W H Y U V r k Hr ltac:(lia))
      as (_ & Huv).
    destruct (Huv ltac:(lia)) as (Hu & Hv). eauto.
Qed.

(** ** Rejected headers and repeated probes *)

Section HeaderPaths.

Context (E : engine).


(** X1.  A header the engine does not accept stops both decoders before
    anything else happens: [DecodeToGray] and [DecodeToI420] return 0, the
    caller's [DecodeInfo] and the whole memory are as before, and the
    engine has been created, asked for the header and destroyed, never
    started. *)
Theorem rejected_header_decodes_nothing fuel jpegData jpegSize output outputSize
    w rc h :
  eng_read_header E (bound_source jpegData jpegSize) true (ram w) = (rc, h) ->
  rc <> JPEG_HEADER_OK ->
  DecodeToGray E fuel jpegData jpegSize output outputSize w
    = Returned 0 (probed_world w (info_cell w)) /\
  DecodeToI420 E fuel jpegData jpegSize output outputSize w
    = Returned 0 (probed_world w (info_cell w)).
Proof.
  intros Hhdr Hrc. apply Z.eqb_neq in Hrc. split.
  - unfold DecodeToGray. rewrite (decoder_prologue _ _ _ _ _ _ _ Hhdr).
    cbn [fst snd]. rewrite Hrc. cbn [negb]. by run.
  - unfold DecodeToI420. rewrite (decoder_prologue _ _ _ _ _ _ _ Hhdr).
    cbn [fst snd]. rewrite Hrc. cbn [negb]. by run.
Qed.


End HeaderPaths.

(** ** The order of engine calls *)

Section CallOrder.

Lemma bind_Returned_inv {A B} (m : M A) (k : A -> M B) w b w' :
  bind m k w = Returned b w' ->
  exists a w1, m w = Returned a w1 /\ k a w1 = Returned b w'.
Proof.
  unfold bind. destruct (m w) as [a w1|h w1]; [eauto|discriminate].
Qed.

(** An action that records no engine call. *)
Lemma silent_calls {A} (m : M A) w :
  traced (fun _ => False) m ->
  calls (final_world (m w)) = calls w /\
  info_cell (final_world (m w)) = info_cell w.
Proof.
  intros Hm. destruct (Hm w) as (Hi & rest & Hc & HF).
  destruct rest as [|e rest]; [|by inversion HF].
  rewrite Hc, app_nil_r. done.
Qed.

Lemma logged_then_silent {A} e (k : unit -> M A) w :
  traced (fun _ => False) (k tt) ->
  calls (final_world (bind (log e) k w)) = calls w ++ [e] /\
  info_cell (final_world (bind (log e) k w)) = info_cell w.
Proof.
  intros Hk. rewrite bind_log.
  destruct (silent_calls (k tt) (add_call w e) Hk) as (-> & ->). done.
Qed.

Context (P : jcall -> Prop).

Lemma quiet_call_dest_void f c : traced P (call_dest_void f c).
Proof.
  destruct f; simpl; [unfold init_destination|unfold term_destination];
    destruct (dest c), (dest_obj c) as [d|]; auto with traced.
  destruct (term_destination_obj d); auto with traced.
Qed.

Lemma quiet_emit_byte c b : traced P (emit_byte c b).
Proof.
  unfold emit_byte.
  destruct (dest c) as [z|], (dest_obj c) as [d|]; auto with traced.
  destruct (next_output_byte (pub d)) as [z0|],
    (free_in_buffer (pub d)) as [f|]; auto with traced.
  assert (traced P (push_byte c z d z0 f b))
    by (unfold push_byte; auto 6 with traced).
  destruct (f =? 0); [|done].
  destruct (empty_output_buffer_p (pub d)). cbn [call_dest_bool].
  unfold empty_output_buffer.
  apply traced_bind; [auto with traced|].
  intros []; auto with traced.
Qed.

Lemma quiet_emit_bytes bs : forall c, traced P (emit_bytes c bs).
Proof.
  induction bs as [|b bs IH]; intros c; cbn [emit_bytes].
  - auto with traced.
  - apply traced_bind; [apply quiet_emit_byte|auto].
Qed.

End CallOrder.

Section EngineCalls.

Context (E : engine).

Lemma jpeg_start_compress_calls c w :
  calls (final_world (jpeg_start_compress E c w))
  = calls w ++ [call_start_compress (dest c) (dest_obj c)].
Proof.
  unfold jpeg_start_compress. apply logged_then_silent.
  destruct (dest_obj c); [|auto with traced].
  apply traced_bind; [apply quiet_call_dest_void|]. intros c1.
  apply traced_bind; [auto with traced|]. intros bs.
  apply traced_bind; [apply quiet_emit_bytes|]. auto with traced.
Qed.

Lemma jpeg_write_raw_data_calls c planes n w :
  calls (final_world (jpeg_write_raw_data E c planes n w))
  = calls w ++ [call_write_raw_data (next_scanline c) planes n].
Proof.
  unfold jpeg_write_raw_data. apply logged_then_silent.
  apply traced_bind; [auto with traced|]. intros m.
  apply traced_bind; [auto with traced|]. intros [lines bs].
  apply traced_bind; [apply quiet_emit_bytes|]. auto with traced.
Qed.

Lemma jpeg_finish_compress_calls c w :
  calls (final_world (jpeg_finish_compress E c w))
  = calls w ++ [call_finish_compress].
Proof.
  unfold jpeg_finish_compress. apply logged_then_silent.
  apply traced_bind; [auto with traced|]. intros bs.
  apply traced_bind; [apply quiet_emit_bytes|]. intros c1.
  destruct (dest_obj c1); [apply quiet_call_dest_void|auto with traced].
Qed.

Lemma Encode_loop_calls width Y U V fuel : forall c w,
  exists batches,
    calls (final_world (YuvEncoder.Encode_loop E fuel width Y U V c w))
    = calls w ++ batches /\
    Forall (fun e => is_write_raw_data e = true) batches.
Proof.
  induction fuel as [|fuel IH]; intros c w; cbn [YuvEncoder.Encode_loop];
    destruct (next_scanline c <? image_height c);
    try (exists []; rewrite app_nil_r; by auto).
  rewrite final_world_bind.
  pose proof (jpeg_write_raw_data_calls c
    (Encode_batch Y U V width (image_height c) (next_scanline c)) 16 w) as Hc.
  destruct (jpeg_write_raw_data E c _ 16 w) as [[lines c1] w1|h w1];
    cbn [final_world snd] in *.
  - destruct (IH c1 w1) as (batches & Hb & HF).
    eexists (_ :: batches). rewrite Hb, Hc, <- app_assoc. split; [done|].
    constructor; done.
  - eexists [_]. split; [exact Hc|]. repeat constructor.
Qed.

(** X7.  The engine calls of one [YuvEncoder::Encode] are, in order:
    [jpeg_start_compress] on the rebound compressor, then nothing but
    [jpeg_write_raw_data] batches, then at most one
    [jpeg_finish_compress], which a call that returns has always made.
    The compressor is never created, reconfigured or destroyed by an
    encode. *)
Theorem Encode_call_order fuel enc data dst size w :
  let c1 := fst (jpeg_memory_dest (YuvEncoder.cinfo enc) dst size) in
  let o := YuvEncoder.Encode E fuel enc data dst size w in
  exists batches tail,
    calls (final_world o)
    = calls w ++ call_start_compress (dest c1) (dest_obj c1) :: batches ++ tail /\
    Forall (fun e => is_write_raw_data e = true) batches /\
    (tail = [] \/ tail = [call_finish_compress]) /\
    (forall r enc' w', o = Returned (r, enc') w' -> tail = [call_finish_compress]).
Proof.
  intros c1 o. subst o. unfold YuvEncoder.Encode. fold c1.
  rewrite final_world_bind.
  pose proof (jpeg_start_compress_calls c1 w) as Hs.
  destruct (jpeg_start_compress E c1 w) as [c2 w2|h w2] eqn:Hstart;
    cbn [final_world] in Hs.
  2:{ exists [], []. rewrite Hs. split; [done|]. split; [constructor|].
      split; [by left|]. intros r enc' w' Hr.
      unfold bind in Hr. rewrite Hstart in Hr. discriminate. }
  cbv zeta. rewrite final_world_bind.
  destruct (Encode_loop_calls (image_width c2) (Encode_Y data)
              (Encode_U data (image_width c2) (image_height c2))
              (Encode_V data (image_width c2) (image_height c2)) fuel c2 w2)
    as (batches & Hb & HF).
  destruct (YuvEncoder.Encode_loop E fuel _ _ _ _ c2 w2) as [c3 w3|h w3] eqn:Hloop;
    cbn [final_world] in Hb.
  2:{ exists batches, []. rewrite Hb, Hs, app_nil_r, <- app_assoc.
      split; [done|]. split; [done|]. split; [by left|].
      intros r enc' w' Hr. unfold bind in Hr.
      rewrite Hstart, Hloop in Hr. discriminate. }
  rewrite final_world_bind.
  pose proof (jpeg_finish_compress_calls c3 w3) as Hf.
  exists batches, [call_finish_compress].
  split; [|split; [done|split; [by right|done]]].
  destruct (jpeg_finish_compress E c3 w3) as [c4 w4|h w4];
    cbn [final_world] in Hf.
  - destruct (dest_obj c4); cbn [final_world ret halt_with];
      rewrite Hf, Hb, Hs, <- !app_assoc; done.
  - rewrite Hf, Hb, Hs, <- !app_assoc. done.
Qed.

End EngineCalls.

(** ** The life of a session *)

Section SessionLife.

Context (E : engine).

(** What a binding leaves behind once the adapter is bound again. *)
Lemma rebind_forgets c b1 s1 b2 s2 dst size :
  fst (jpeg_memory_dest (fst (jpeg_memory_dest c b1 s1)) dst size)
  = fst (jpeg_memory_dest (fst (jpeg_memory_dest c b2 s2)) dst size).
Proof.
  unfold jpeg_memory_dest. destruct (dest c) as [p|]; simpl.
  - rewrite !alter_alter_eq.
    by rewrite (alter_ext (rebind_dest dst size ∘ rebind_dest b1 s1)
                  (rebind_dest dst size ∘ rebind_dest b2 s2)).
  - unfold set_block, set_dest_mem; simpl. by rewrite !alter_insert_eq.
Qed.

(** X8.  The constructor always succeeds, after exactly three engine
    calls (create, defaults, quality without forced baseline).  The
    session it builds declares the dimensions as [JDIMENSION] values,
    three YCbCr components supplied as raw data, the given quality and
    the engine's default transform, and owns an adapter bound to no
    buffer with the declared budget as capacity; with at least the three
    component slots of the defaults, the sampling factors are 2x2 for
    luma and 1x1 for each chroma plane. *)
Theorem new_session width height quality bufferSize w :
  exists enc,
    YuvEncoder.new E width height quality bufferSize w =
    Returned enc
      {| ram := ram w; cerr := cerr w; info_cell := info_cell w;
         calls := calls w ++ [call_create_compress; call_set_defaults;
                              call_set_quality quality false] |} /\
    image_width (YuvEncoder.cinfo enc) = C.to_uint width /\
    image_height (YuvEncoder.cinfo enc) = C.to_uint height /\
    input_components (YuvEncoder.cinfo enc) = 3 /\
    in_color_space (YuvEncoder.cinfo enc) = JCS_YCbCr /\
    raw_data_in (YuvEncoder.cinfo enc) = true /\
    quant (YuvEncoder.cinfo enc) = (quality, false) /\
    dct_method (YuvEncoder.cinfo enc) = JDCT_DEFAULT E /\
    next_scanline (YuvEncoder.cinfo enc) = 0 /\
    dest_obj (YuvEncoder.cinfo enc)
      = Some (fresh_dest C.nullptr (C.to_ulong bufferSize)) /\
    ((3 <= length (default_comp_info E JCS_YCbCr))%nat ->
     comp_info (YuvEncoder.cinfo enc) !! 0%nat = Some (2, 2) /\
     comp_info (YuvEncoder.cinfo enc) !! 1%nat = Some (1, 1) /\
     comp_info (YuvEncoder.cinfo enc) !! 2%nat = Some (1, 1)).
Proof.
  eexists. split.
  - unfold YuvEncoder.new, jpeg_create_compress, jpeg_set_defaults,
      jpeg_set_quality. step. unfold ret, add_call.
    cbn [ram cerr info_cell calls]. rewrite <- !app_assoc.
    reflexivity.
  - cbn [YuvEncoder.cinfo]. do 8 (split; [reflexivity|]).
    split.
    { unfold dest_obj, jpeg_memory_dest, set_block, set_dest_mem; simpl.
      apply lookup_insert_eq. }
    intros Hlen. simpl.
    split; [|split].
    + rewrite list_lookup_insert_ne, list_lookup_insert_ne by lia.
      apply list_lookup_insert_eq. lia.
    + rewrite list_lookup_insert_ne by lia.
      apply list_lookup_insert_eq. rewrite length_insert. lia.
    + apply list_lookup_insert_eq. rewrite !length_insert. lia.
Qed.

(** X9.  The buffer budget given to the constructor has no effect on
    encoding: two sessions built alike except for the budget give, on the
    same frame and destination, the same outcome in the same world. *)
Theorem buffer_budget_is_ignored width height quality budget1 budget2
    fuel data dst size w :
  bind (YuvEncoder.new E width height quality budget1)
       (fun enc => YuvEncoder.Encode E fuel enc data dst size) w
  = bind (YuvEncoder.new E width height quality budget2)
         (fun enc => YuvEncoder.Encode E fuel enc data dst size) w.
Proof.
  unfold YuvEncoder.new, jpeg_create_compress, jpeg_set_defaults,
    jpeg_set_quality. step.
  unfold YuvEncoder.Encode. cbn [YuvEncoder.cinfo].
  by rewrite (rebind_forgets _ C.nullptr (C.to_ulong budget1)
                C.nullptr (C.to_ulong budget2)).
Qed.

(** X6.  An encode that returns leaves the session as it found it, the
    contents of its adapter apart: same adapter pointer, same pool (no
    allocation), same dimensions, components, sampling, quality and
    transform; the caller's [DecodeInfo] is not touched; the byte count
    returned is within the capacity; and the session can be encoded with
    again, no later encode ever stopping on an undefined operation. *)
Theorem Encode_keeps_session fuel enc data dst size w r enc' w' :
  has_adapter (YuvEncoder.cinfo enc) ->
  YuvEncoder.Encode E fuel enc data dst size w = Returned (r, enc') w' ->
  same_params (YuvEncoder.cinfo enc) (YuvEncoder.cinfo enc') /\
  has_adapter (YuvEncoder.cinfo enc') /\
  info_cell w' = info_cell w /\
  (0 <= size <= C.ULONG_MAX -> 0 <= r <= size) /\
  (forall fuel2 data2 dst2 size2 w2 h w3,
     YuvEncoder.Encode E fuel2 enc' data2 dst2 size2 w2 = Halted h w3 ->
     h <> Undefined).
Proof.
  intros Ha Hrun.
  pose proof (Encode_spec E fuel enc data dst size w Ha) as Hspec.
  cbv zeta in Hspec. rewrite Hrun in Hspec.
  destruct Hspec as (Hp & Hw & (Hi & _) & Hfin). cbn [fst snd] in *.
  pose proof (writing_has_adapter _ _ _ Hw) as Ha'.
  split; [exact Hp|]. split; [exact Ha'|]. split; [exact Hi|].
  split.
  - intros Hsize.
    destruct Hfin as (d & free & _ & _ & _ & _ & _ & Hr & Hrange).
    specialize (Hrange ltac:(lia)).
    rewrite Hr, to_ulong_small by lia. lia.
  - intros fuel2 data2 dst2 size2 w2 h w3 Hrun2.
    pose proof (Encode_spec E fuel2 enc' data2 dst2 size2 w2 Ha') as Hspec2.
    cbv zeta in Hspec2. rewrite Hrun2 in Hspec2. by destruct Hspec2.
Qed.

End SessionLife.

(** ** Complete decodes *)

Section Landing.

Context (P : jcall -> Prop) (lo hi : Z).

Lemma lands_in_refl w : lands_in P lo hi w w.
Proof. split; [apply follows_refl|done]. Qed.

Lemma lands_in_trans w1 w2 w3 :
  lands_in P lo hi w1 w2 -> lands_in P lo hi w2 w3 -> lands_in P lo hi w1 w3.
Proof.
  intros (Hf1 & Hr1) (Hf2 & Hr2). split; [eapply follows_trans; eauto|].
  intros a Ha. rewrite Hr2, Hr1; auto.
Qed.

Lemma store_bytes_outside bs : forall p m a,
  ~ (p <= a < p + Z.of_nat (length bs)) -> store_bytes p bs m !! a = m !! a.
Proof.
  induction bs as [|b bs IH]; intros p m a Ha; simpl; [done|].
  simpl in Ha. rewrite IH by lia. apply lookup_insert_ne. lia.
Qed.

Lemma store_rows_outside ptrs : forall rows m,
  (forall (k : nat) p row,
     ptrs !! k = Some (Some p) -> rows !! k = Some row ->
     lo <= p /\ p + Z.of_nat (length row) <= hi) ->
  forall a, ~ (lo <= a < hi) -> store_rows ptrs rows m !! a = m !! a.
Proof.
  induction ptrs as [|[p|] ptrs IH]; intros rows m Hfit a Ha;
    destruct rows as [|row rows]; simpl; try done.
  - rewrite IH; [|intros k q r Hq Hr; apply (Hfit (S k) q r Hq Hr)|done].
    apply store_bytes_outside.
    destruct (Hfit 0%nat p row eq_refl eq_refl). lia.
  - apply IH; [|done]. intros k q r Hq Hr. apply (Hfit (S k) q r Hq Hr).
Qed.

End Landing.

Section GrayDecode.

Context (E : engine).

Lemma jpeg_read_scanlines_run c rowPtr n w :
  jpeg_read_scanlines E c rowPtr n w =
  match eng_read_scanlines E c (ram w) with
  | Some (lines, samples) =>
    Returned
      (lines,
       set_output c (output_width c) (output_height c) (output_components c)
         (C.to_uint (output_scanline c + lines)))
      {| ram := store_bytes rowPtr samples (ram w);
         cerr := cerr w; info_cell := info_cell w;
         calls := calls w ++ [call_read_scanlines (output_scanline c) rowPtr] |}
  | None =>
    Halted ErrorExit (add_call w (call_read_scanlines (output_scanline c) rowPtr))
  end.
Proof.
  unfold jpeg_read_scanlines. rewrite bind_log.
  unfold bind, get_ram, engine_answer. cbn [ram add_call].
  by destruct (eng_read_scanlines E c (ram w)) as [[lines samples]|].
Qed.

Lemma jpeg_finish_decompress_run c w :
  jpeg_finish_decompress E c w =
  if eng_finish_decompress E c (ram w)
  then Returned tt (add_call w call_finish_decompress)
  else Halted ErrorExit (add_call w call_finish_decompress).
Proof.
  unfold jpeg_finish_decompress. rewrite bind_log.
  unfold bind, get_ram. cbn [ram add_call].
  by destruct (eng_finish_decompress E c (ram w)).
Qed.

Lemma Gray_rowStride_range c : 0 <= Gray_rowStride c <= C.UINT_MAX.
Proof.
  unfold Gray_rowStride.
  pose proof (to_uint_range (output_width c * C.to_uint (output_components c))).
  pose proof uint_le_ulong.
  rewrite to_ulong_small by lia. done.
Qed.

(** The row loop of [DecodeToGray]: every row goes where its scanline
    says, inside the output. *)
Lemma DecodeToGray_loop_lands output rs oh fuel :
  gray_rows_fit E -> 0 <= oh <= C.UINT_MAX ->
  forall c w,
    Gray_rowStride c = rs -> output_height c = oh -> 0 <= output_scanline c ->
    lands_in (gray_row_event output rs oh) output (output + rs * oh) w
      (final_world (DecodeToGray_loop E fuel output rs c w)).
Proof.
  intros Hfit Hoh.
  induction fuel as [|fuel IH]; intros c w Hrs Hh Hn;
    cbn [DecodeToGray_loop];
    destruct (output_scanline c <? output_height c) eqn:Hlt;
    try apply lands_in_refl.
  apply Z.ltb_lt in Hlt.
  pose proof (Gray_rowStride_range c) as Hrange. rewrite Hrs in Hrange.
  pose proof uint_le_ulong.
  assert (Hptr : C.to_ulong (output_scanline c * rs) = output_scanline c * rs).
  { apply to_ulong_small. unfold C.UINT_MAX, C.ULONG_MAX in *. nia. }
  rewrite final_world_bind, jpeg_read_scanlines_run, Hptr.
  destruct (eng_read_scanlines E c (ram w)) as [[lines samples]|] eqn:Hans.
  - cbn [snd]. eapply lands_in_trans; [|apply IH].
    + split.
      * split; [done|]. eexists. split; [reflexivity|].
        repeat constructor; lia.
      * intros a Ha. cbn [ram]. apply store_bytes_outside.
        apply Hfit in Hans. rewrite Hrs in Hans. nia.
    + done.
    + done.
    + cbn [output_scanline set_output]. apply to_uint_range.
  - split; [|done]. apply follows_add_call. simpl. split; [lia|done].
Qed.

(** With an engine that delivers its rows, as many iterations as there
    are rows are enough. *)
Lemma DecodeToGray_loop_fuel output rs fuel :
  scanline_progress E ->
  forall c w h w',
    output_height c + 1 <= 2 ^ 32 -> 0 <= output_scanline c ->
    output_height c - output_scanline c <= Z.of_nat fuel ->
    DecodeToGray_loop E fuel output rs c w = Halted h w' -> h = ErrorExit.
Proof.
  intros (Hprog & _).
  induction fuel as [|fuel IH]; intros c w h w' Hmax Hn Hfuel;
    cbn [DecodeToGray_loop];
    destruct (output_scanline c <? output_height c) eqn:Hlt;
    try (apply Z.ltb_lt in Hlt); try discriminate.
  - lia.
  - unfold bind. rewrite jpeg_read_scanlines_run.
    destruct (eng_read_scanlines E c (ram w)) as [[lines samples]|] eqn:Hans.
    + apply Hprog in Hans. subst lines. cbn [snd]. apply IH.
      * done.
      * cbn [output_scanline set_output]. apply to_uint_range.
      * cbn [output_scanline output_height set_output].
        rewrite to_uint_small by (unfold C.UINT_MAX; lia). lia.
    + intros Hh. by injection Hh as <- _.
Qed.

End GrayDecode.

Section GrayDecodeWhole.

Context (E : engine).

(** X2.  A grayscale decode whose computed size fits the capacity, on an
    engine whose rows are no longer than an output row: every row is read
    through a pointer [scanline] rows into the output, and no byte
    outside the [rowStride * height] bytes of the output changes,
    however the call ends.  The caller's [DecodeInfo] holds the output
    geometry and the grayscale colour space.  A call that returns
    returns [rowStride * height], after finishing and destroying the
    decompressor; with an engine that delivers a row per request and an
    iteration budget of the height, the only other ending is the
    engine's error exit. *)
Theorem DecodeToGray_complete fuel jpegData jpegSize output outputSize
    w h ow oh oc :
  eng_read_header E (bound_source jpegData jpegSize) true (ram w)
    = (JPEG_HEADER_OK, h) ->
  eng_start_decompress E (Gray_request jpegData jpegSize h) (ram w)
    = Some (ow, oh, oc) ->
  0 <= oh <= C.UINT_MAX ->
  gray_rows_fit E ->
  let c := set_output (Gray_request jpegData jpegSize h) ow oh oc 0 in
  let rs := Gray_rowStride c in
  rs * oh <= outputSize ->
  let o := DecodeToGray E fuel jpegData jpegSize output outputSize w in
  unchanged_outside output (output + rs * oh) w (final_world o) /\
  info_cell (final_world o)
    = {| width := C.to_int ow; height := C.to_int oh; components := oc;
         colorSpace := int_of_color_space JCS_GRAYSCALE |} /\
  (forall r w', o = Returned r w' ->
     r = rs * oh /\
     exists rows,
       calls w' = calls w ++ [call_create_decompress; call_read_header;
                              call_start_decompress]
                  ++ rows ++ [call_finish_decompress; call_destroy_decompress] /\
       Forall (gray_row_event output rs oh) rows) /\
  (scanline_progress E -> oh <= Z.of_nat fuel ->
   forall hlt w', o = Halted hlt w' -> hlt = ErrorExit).
Proof.
  intros Hhdr Hstart Hoh Hfit c rs Hcap o.
  pose proof (Gray_rowStride_range c) as Hrs. fold rs in Hrs.
  pose proof uint_le_ulong.
  assert (Htot : Gray_totalSize c = rs * oh).
  { unfold Gray_totalSize. fold rs. cbn [c output_height set_output].
    apply to_ulong_small. unfold C.UINT_MAX, C.ULONG_MAX in *. nia. }
  assert (Hno : (Gray_totalSize c >? outputSize) = false).
  { rewrite Z.gtb_ltb. apply Z.ltb_ge. lia. }
  set (w3 := {| ram := ram w; cerr := cerr w;
                info_cell := {| width := C.to_int ow; height := C.to_int oh;
                                components := oc;
                                colorSpace := int_of_color_space JCS_GRAYSCALE |};
                calls := calls w ++ [call_create_decompress; call_read_header;
                                     call_start_decompress] |}).
  assert (Ho : o = (let* c4 := DecodeToGray_loop E fuel output rs c in
                    let* _ := jpeg_finish_decompress E c4 in
                    let* _ := jpeg_destroy_decompress c4 in
                    ret (rs * oh)) w3).
  { subst o. unfold DecodeToGray.
    rewrite (decoder_prologue _ _ _ _ _ _ _ Hhdr).
    cbn [fst snd Z.eqb JPEG_HEADER_OK Pos.eqb negb].
    fold (Gray_request jpegData jpegSize h).
    rewrite (bind_start_decompress _ _ _ ow oh oc) by exact Hstart.
    fold c.
    unfold write_info_width, write_info_height, write_info_components,
      write_info_colorSpace.
    rewrite !bind_update_info. rewrite Hno. fold rs. rewrite Htot.
    cbn [ram cerr info_cell calls add_call width height components colorSpace].
    subst w3. by rewrite <- !app_assoc. }
  clearbody o.
  pose proof (DecodeToGray_loop_lands E output rs oh fuel Hfit Hoh c w3
                eq_refl eq_refl ltac:(simpl; lia)) as Hland.
  unfold bind at 1 in Ho.
  destruct (DecodeToGray_loop E fuel output rs c w3) as [c4 w4|hl w4] eqn:Hloop;
    cbn [final_world] in Hland;
    destruct Hland as ((Hi & rows & Hcalls & Hrows) & Hram).
  - unfold bind at 1 in Ho. rewrite jpeg_finish_decompress_run in Ho.
    destruct (eng_finish_decompress E c4 (ram w4)).
    + cbv [bind jpeg_destroy_decompress log ret add_call] in Ho.
      cbn [ram cerr info_cell calls] in Ho. subst o.
      cbn [final_world ram cerr info_cell calls].
      split; [exact Hram|]. split; [by rewrite Hi|].
      split; [|intros _ _ hlt w' Hh; discriminate].
      intros r w' Hr. injection Hr as <- <-. split; [done|].
      exists rows. cbn [calls]. rewrite Hcalls. subst w3. cbn [calls].
      rewrite <- !app_assoc. split; [done|exact Hrows].
    + subst o. cbn [final_world add_call ram info_cell].
      split; [exact Hram|]. split; [by rewrite Hi|].
      split; [intros r w' Hr; discriminate|].
      intros _ _ hlt w' Hh. by injection Hh as <- _.
  - subst o. cbn [final_world].
    split; [exact Hram|]. split; [by rewrite Hi|].
    split; [intros r w' Hr; discriminate|].
    intros Hprog Hfuel hlt w' Hh. injection Hh as <- _.
    eapply (DecodeToGray_loop_fuel E output rs fuel Hprog c w3);
      [| | |exact Hloop]; cbn [c output_height output_scanline set_output];
      unfold C.UINT_MAX in *; lia.
Qed.

End GrayDecodeWhole.

Section PlanarDecode.

Context (E : engine).

Lemma quarter_of_halves a b : 0 <= a -> 0 <= b -> a / 2 * (b / 2) <= a * b / 4.
Proof.
  intros Ha Hb. apply Z.div_le_lower_bound; [lia|].
  pose proof (Z.div_mod a 2 ltac:(lia)). pose proof (Z.mod_pos_bound a 2 ltac:(lia)).
  pose proof (Z.div_mod b 2 ltac:(lia)). pose proof (Z.mod_pos_bound b 2 ltac:(lia)).
  assert (0 <= a / 2) by (apply Z.div_pos; lia).
  assert (0 <= b / 2) by (apply Z.div_pos; lia).
  nia.
Qed.

(** Every pointer of a decoder batch leaves room for a row of its plane
    inside the output: the luma pointers for [width] bytes, the chroma
    pointers for [width / 2] bytes.  For a height of 1 the chroma
    pointers are those of row [-1] of their plane. *)
Lemma DecodeToI420_batch_lands s ow oh output r :
  rows_wf r -> 0 <= s < oh -> 0 < ow -> ow * oh <= C.INT_MAX ->
  oh + 16 <= C.INT_MAX ->
  let b := DecodeToI420_batch s ow oh output (output + ow * oh)
             (output + ow * oh + ow * oh / 4) r in
  let hi := output + (ow * oh + 2 * (ow * oh / 4)) in
  (forall (k : nat) p, rows_y b !! k = Some (Some p) -> output <= p /\ p + ow <= hi) /\
  (forall (k : nat) p, rows_u b !! k = Some (Some p) -> output <= p /\ p + ow / 2 <= hi) /\
  (forall (k : nat) p, rows_v b !! k = Some (Some p) -> output <= p /\ p + ow / 2 <= hi).
Proof.
  intros Hr Hs Hw Hwh Hh16 b hi.
  assert (Hb : rows_wf b) by (apply DecodeToI420_rows_wf; exact Hr).
  destruct Hb as (Hly & Hlu & Hlv).
  pose proof (quarter_of_halves ow oh ltac:(lia) ltac:(lia)) as Hq.
  assert (0 <= ow / 2 <= ow)
    by (split; [apply Z.div_pos; lia | apply Z.div_le_upper_bound; lia]).
  assert (0 <= oh / 2) by (apply Z.div_pos; lia).
  assert (0 <= s / 2) by (apply Z.div_pos; lia).
  assert (0 <= ow * oh / 4) by (apply Z.div_pos; nia).
  assert (Hclamp : forall i, 0 <= i ->
            let cl := if s / 2 + i <? oh / 2 then s / 2 + i else oh / 2 - 1 in
            - (ow / 2) <= cl * (ow / 2) /\
            cl * (ow / 2) + ow / 2 <= ow * oh / 4).
  { intros i Hi. cbv zeta.
    destruct (s / 2 + i <? oh / 2) eqn:Hlt;
      [apply Z.ltb_lt in Hlt|apply Z.ltb_ge in Hlt]; nia. }
  subst hi. split; [|split]; intros k p Hk.
  - assert (Hk16 : (k < 16)%nat) by (rewrite <- Hly; by eapply lookup_lt_Some).
    destruct (DecodeToI420_batch_entries s ow oh output (output + ow * oh)
                (output + ow * oh + ow * oh / 4) r (Z.of_nat k) Hr ltac:(lia))
      as (Hy & _).
    rewrite Nat2Z.id in Hy. fold b in Hy. rewrite Hy in Hk.
    injection Hk as <-. rewrite I420_y_row_exact by lia.
    destruct (s + Z.of_nat k <? oh) eqn:Hlt;
      [apply Z.ltb_lt in Hlt|apply Z.ltb_ge in Hlt]; nia.
  - assert (Hk8 : (k < 8)%nat) by (rewrite <- Hlu; by eapply lookup_lt_Some).
    destruct (DecodeToI420_batch_entries s ow oh output (output + ow * oh)
                (output + ow * oh + ow * oh / 4) r (Z.of_nat k) Hr ltac:(lia))
      as (_ & Huv).
    destruct (Huv ltac:(lia)) as (Hu & _).
    rewrite Nat2Z.id in Hu. fold b in Hu. rewrite Hu in Hk.
    injection Hk as <-. rewrite I420_uv_row_exact by lia.
    pose proof (Hclamp (Z.of_nat k) ltac:(lia)) as Hc. cbv zeta in Hc. nia.
  - assert (Hk8 : (k < 8)%nat) by (rewrite <- Hlv; by eapply lookup_lt_Some).
    destruct (DecodeToI420_batch_entries s ow oh output (output + ow * oh)
                (output + ow * oh + ow * oh / 4) r (Z.of_nat k) Hr ltac:(lia))
      as (_ & Huv).
    destruct (Huv ltac:(lia)) as (_ & Hv).
    rewrite Nat2Z.id in Hv. fold b in Hv. rewrite Hv in Hk.
    injection Hk as <-. rewrite I420_uv_row_exact by lia.
    pose proof (Hclamp (Z.of_nat k) ltac:(lia)) as Hc. cbv zeta in Hc. nia.
Qed.

Lemma DecodeToI420_loop_lands output ow oh fuel :
  raw_rows_fit E -> 0 < ow -> 0 < oh -> ow * oh <= C.INT_MAX ->
  oh + 16 <= C.INT_MAX ->
  forall planes c w,
    rows_wf planes -> output_width c = ow -> output_height c = oh ->
    0 <= output_scanline c ->
    lands_in (fun e => is_read_raw_data e = true)
      output (output + (ow * oh + 2 * (ow * oh / 4))) w
      (final_world
         (DecodeToI420_loop E fuel ow oh output (output + ow * oh)
            (output + ow * oh + ow * oh / 4) planes c w)).
Proof.
  intros Hfit Hw Hh Hwh Hh16.
  assert (0 <= ow / 2) by (apply Z.div_pos; lia).
  induction fuel as [|fuel IH]; intros planes c w Hr Hcw Hch Hn;
    cbn [DecodeToI420_loop];
    destruct (output_scanline c <? output_height c) eqn:Hlt;
    try apply lands_in_refl.
  apply Z.ltb_lt in Hlt.
  rewrite final_world_bind, jpeg_read_raw_data_run.
  destruct (eng_read_raw_data E c (ram w)) as [[lines [[ys us] vs]]|] eqn:Hans.
  - cbn [snd]. eapply lands_in_trans; [|apply IH].
    + destruct (Hfit _ _ _ _ _ _ Hans) as (Hys & Hus & Hvs).
      rewrite Hcw in Hys, Hus, Hvs.
      destruct (DecodeToI420_batch_lands (output_scanline c) ow oh output planes
                  Hr ltac:(lia) Hw Hwh Hh16) as (Hy & Hu & Hv).
      split.
      * split; [done|]. eexists. split; [reflexivity|]. by repeat constructor.
      * intros a Ha. cbn [ram].
        rewrite (store_rows_outside output
                   (output + (ow * oh + 2 * (ow * oh / 4)))); [|..|exact Ha].
        2:{ intros k p row Hp Hrow. apply Hv in Hp.
            pose proof (proj1 (Forall_lookup _ _) Hvs k row Hrow). simpl in *. lia. }
        rewrite (store_rows_outside output
                   (output + (ow * oh + 2 * (ow * oh / 4)))); [|..|exact Ha].
        2:{ intros k p row Hp Hrow. apply Hu in Hp.
            pose proof (proj1 (Forall_lookup _ _) Hus k row Hrow). simpl in *. lia. }
        apply (store_rows_outside output
                 (output + (ow * oh + 2 * (ow * oh / 4)))); [|exact Ha].
        intros k p row Hp Hrow. apply Hy in Hp.
        pose proof (proj1 (Forall_lookup _ _) Hys k row Hrow). simpl in *. lia.
    + by apply DecodeToI420_rows_wf.
    + done.
    + done.
    + cbn [output_scanline set_output]. apply to_uint_range.
  - split; [|done].
    split; [done|]. eexists. split; [reflexivity|]. by repeat constructor.
Qed.

Lemma DecodeToI420_loop_fuel width height Y U V fuel :
  raw_read_progress E ->
  forall planes c w h w',
    output_height c + 16 <= 2 ^ 32 -> 0 <= output_scanline c ->
    output_height c - output_scanline c <= Z.of_nat fuel ->
    DecodeToI420_loop E fuel width height Y U V planes c w = Halted h w' ->
    h = ErrorExit.
Proof.
  intros Hprog.
  induction fuel as [|fuel IH]; intros planes c w h w' Hmax Hn Hfuel;
    cbn [DecodeToI420_loop];
    destruct (output_scanline c <? output_height c) eqn:Hlt;
    try (apply Z.ltb_lt in Hlt); try discriminate.
  - lia.
  - unfold bind. rewrite jpeg_read_raw_data_run.
    destruct (eng_read_raw_data E c (ram w)) as [[lines [[ys us] vs]]|] eqn:Hans.
    + apply Hprog in Hans. cbn [snd]. apply IH.
      * done.
      * cbn [output_scanline set_output]. apply to_uint_range.
      * cbn [output_scanline output_height set_output].
        rewrite to_uint_small by (unfold C.UINT_MAX; lia). lia.
    + intros Hh. by injection Hh as <- _.
Qed.

(** X3.  A planar decode whose computed size fits the capacity, of a
    geometry for which the [int] arithmetic of the code does not
    overflow, on an engine whose rows are no longer than a row of their
    plane: no byte outside the [width * height + 2 * (width * height / 4)]
    bytes of the output changes, however the call ends, also when the
    last batch is clamped and when the height is 1.  A call that returns
    returns that size, after raw-data reads only, finishing and
    destroying the decompressor; with an engine that delivers between 1
    and 16 rows per batch and an iteration budget of the height, the
    only other ending is the engine's error exit. *)
Theorem DecodeToI420_complete fuel jpegData jpegSize output outputSize
    w h ow oh oc :
  eng_read_header E (bound_source jpegData jpegSize) true (ram w)
    = (JPEG_HEADER_OK, h) ->
  eng_start_decompress E (I420_request jpegData jpegSize h) (ram w)
    = Some (ow, oh, oc) ->
  0 < ow -> 0 < oh -> ow * oh <= C.INT_MAX -> oh + 16 <= C.INT_MAX ->
  raw_rows_fit E ->
  let total := ow * oh + 2 * (ow * oh / 4) in
  total <= outputSize ->
  let o := DecodeToI420 E fuel jpegData jpegSize output outputSize w in
  unchanged_outside output (output + total) w (final_world o) /\
  (forall r w', o = Returned r w' ->
     r = total /\
     exists batches,
       calls w' = calls w ++ [call_create_decompress; call_read_header;
                              call_start_decompress]
                  ++ batches
                  ++ [call_finish_decompress; call_destroy_decompress] /\
       Forall (fun e => is_read_raw_data e = true) batches) /\
  (raw_read_progress E -> oh <= Z.of_nat fuel ->
   forall hlt w', o = Halted hlt w' -> hlt = ErrorExit).
Proof.
  intros Hhdr Hstart Hw Hh Hwh Hh16 Hfit total Hcap o.
  assert (Hh' : oh <= C.INT_MAX) by lia.
  assert (Hw' : ow <= C.INT_MAX) by (unfold C.INT_MAX in *; nia).
  pose proof uint_le_ulong. pose proof int_le_uint.
  assert (Hiw : C.to_int ow = ow) by (apply to_int_small; lia).
  assert (Hih : C.to_int oh = oh) by (apply to_int_small; lia).
  assert (HsY : I420_sizeY ow oh = ow * oh).
  { unfold I420_sizeY. rewrite to_int_small by nia.
    apply to_ulong_small. nia. }
  assert (0 <= ow * oh / 4 <= ow * oh)
    by (split; [apply Z.div_pos; nia | apply Z.div_le_upper_bound; nia]).
  assert (Htot : I420_totalSize ow oh = total).
  { unfold I420_totalSize, I420_sizeU. rewrite HsY.
    rewrite (to_ulong_small (ow * oh + ow * oh / 4))
      by (unfold C.INT_MAX, C.ULONG_MAX in *; lia).
    rewrite to_ulong_small by (unfold C.INT_MAX, C.ULONG_MAX in *; lia).
    subst total. lia. }
  assert (Hno : (I420_totalSize ow oh >? outputSize) = false).
  { rewrite Z.gtb_ltb. apply Z.ltb_ge. lia. }
  set (c := set_output (I420_request jpegData jpegSize h) ow oh oc 0).
  set (w3 := {| ram := ram w; cerr := cerr w;
                info_cell := {| width := ow; height := oh; components := 3;
                                colorSpace := int_of_color_space JCS_YCbCr |};
                calls := calls w ++ [call_create_decompress; call_read_header;
                                     call_start_decompress] |}).
  assert (Ho : o = (let* c4 := DecodeToI420_loop E fuel ow oh output
                                 (output + ow * oh)
                                 (output + ow * oh + ow * oh / 4) blank_rows c in
                    let* _ := jpeg_finish_decompress E c4 in
                    let* _ := jpeg_destroy_decompress c4 in
                    ret total) w3).
  { subst o. unfold DecodeToI420.
    rewrite (decoder_prologue _ _ _ _ _ _ _ Hhdr).
    cbn [fst snd Z.eqb JPEG_HEADER_OK Pos.eqb negb].
    fold (I420_request jpegData jpegSize h).
    rewrite (bind_start_decompress _ _ _ ow oh oc) by exact Hstart.
    fold c.
    unfold write_info_width, write_info_height, write_info_components,
      write_info_colorSpace.
    rewrite !bind_update_info.
    cbn [c output_width output_height set_output].
    rewrite Hiw, Hih, Hno, Htot. unfold I420_sizeU. rewrite HsY.
    cbn [ram cerr info_cell calls add_call width height components colorSpace].
    subst w3. by rewrite <- !app_assoc. }
  clearbody o.
  pose proof (DecodeToI420_loop_lands output ow oh fuel Hfit Hw Hh Hwh Hh16
                blank_rows c w3 ltac:(by repeat split) eq_refl eq_refl
                ltac:(simpl; lia)) as Hland.
  unfold bind at 1 in Ho.
  destruct (DecodeToI420_loop E fuel ow oh output (output + ow * oh)
              (output + ow * oh + ow * oh / 4) blank_rows c w3)
    as [c4 w4|hl w4] eqn:Hloop;
    cbn [final_world] in Hland;
    destruct Hland as ((Hi & rows & Hcalls & Hrows) & Hram).
  - unfold bind at 1 in Ho. rewrite jpeg_finish_decompress_run in Ho.
    destruct (eng_finish_decompress E c4 (ram w4)).
    + cbv [bind jpeg_destroy_decompress log ret add_call] in Ho.
      cbn [ram cerr info_cell calls] in Ho. subst o.
      cbn [final_world ram cerr info_cell calls].
      split; [exact Hram|].
      split; [|intros _ _ hlt w' Hx; discriminate].
      intros r w' Hr. injection Hr as <- <-. split; [done|].
      exists rows. cbn [calls]. rewrite Hcalls. subst w3. cbn [calls].
      rewrite <- !app_assoc. split; [done|exact Hrows].
    + subst o. cbn [final_world add_call ram info_cell].
      split; [exact Hram|].
      split; [intros r w' Hr; discriminate|].
      intros _ _ hlt w' Hx. by injection Hx as <- _.
  - subst o. cbn [final_world].
    split; [exact Hram|].
    split; [intros r w' Hr; discriminate|].
    intros Hprog Hfuel hlt w' Hx. injection Hx as <- _.
    eapply (DecodeToI420_loop_fuel _ _ _ _ _ fuel Hprog blank_rows c w3);
      [| | |exact Hloop]; cbn [c output_height output_scanline set_output];
      unfold C.INT_MAX in *; lia.
Qed.

End PlanarDecode.

(** ** [EncodeGray8] *)

Section GrayEncode.

Context (E : engine).

Lemma jpeg_write_scanlines_spec P buf size c row n w :
  writing buf size c ->
  P (call_write_scanlines (next_scanline c) row) ->
  advances P buf size c w snd
    (fun r => next_scanline (snd r) = C.to_uint (next_scanline c + fst r) /\
              exists m bs, eng_write_scanlines E c row n m = Some (fst r, bs))
    (jpeg_write_scanlines E c row n w).
Proof.
  intros Hw He. unfold jpeg_write_scanlines.
  eapply advances_bind; [apply advances_log; done|].
  intros [] w1 _ _ _.
  eapply advances_bind; [apply advances_get_ram; done|].
  intros m w2 _ _ _.
  eapply advances_bind; [apply advances_engine_answer; done|].
  intros [lines bs] w3 Hans _ _. cbv beta iota.
  eapply advances_bind; [apply emit_bytes_spec; done|].
  intros c1 w4 Hn _ Hw1. cbv beta.
  apply (advances_ret P buf size
    (lines, set_next_scanline c1 (C.to_uint (next_scanline c + lines)))).
  - apply set_next_scanline_same_params.
  - done.
  - simpl. split; [done|]. eauto.
Qed.

Lemma EncodeGray8_loop_spec buf size grayData width H fuel :
  0 <= width -> 0 <= H -> width * H <= C.UINT_MAX ->
  forall c w,
    writing buf size c -> image_height c = H -> 0 <= next_scanline c ->
    advances (gray_encode_event grayData width H) buf size c w
      (fun c' => c') (fun _ => True)
      (EncodeGray8_loop E fuel grayData width c w).
Proof.
  intros Hwidth HH HwH.
  induction fuel as [|fuel IH]; intros c w Hw Hh Hn;
    cbn [EncodeGray8_loop];
    destruct (next_scanline c <? image_height c) eqn:Hlt.
  - simpl. split; [done|]. apply extends_refl.
  - apply (advances_ret _ buf size c); auto using same_params_refl.
  - apply Z.ltb_lt in Hlt.
    eapply advances_bind.
    { apply jpeg_write_scanlines_spec; [done|].
      simpl. rewrite Hh in *. split; [lia|].
      rewrite (to_uint_small width) by nia.
      rewrite to_uint_small; [done|nia]. }
    intros [lines c1] w1 (Hn1 & _) Hp Hw1. simpl in *.
    eapply advances_weaken; [apply IH|done].
    + done.
    + destruct Hp as (_&_&_&_&Hh1&_). congruence.
    + rewrite Hn1. apply to_uint_range.
  - apply (advances_ret _ buf size c); auto using same_params_refl.
Qed.

Lemma loop_free_write_scanlines c row n :
  loop_free (jpeg_write_scanlines E c row n).
Proof.
  unfold jpeg_write_scanlines.
  apply loop_free_bind; [apply loop_free_log|]. intros _.
  apply loop_free_bind; [apply loop_free_get_ram|]. intros m.
  apply loop_free_bind; [apply loop_free_engine_answer|]. intros [lines bs].
  apply loop_free_bind; [apply loop_free_emit_bytes|]. intros c1.
  apply loop_free_ret.
Qed.

Lemma EncodeGray8_loop_fuel buf size grayData width fuel : forall c w,
  scanline_progress E ->
  writing buf size c ->
  image_height c + 1 <= 2 ^ 32 -> 0 <= next_scanline c ->
  image_height c - next_scanline c <= Z.of_nat fuel ->
  forall h w',
    EncodeGray8_loop E fuel grayData width c w = Halted h w' ->
    h <> OutOfFuel.
Proof.
  intros c w (_ & Hprog). revert c w.
  induction fuel as [|fuel IH]; intros c w Hw Hmax Hn Hfuel h w';
    cbn [EncodeGray8_loop];
    destruct (next_scanline c <? image_height c) eqn:Hlt;
    try (apply Z.ltb_lt in Hlt); try discriminate.
  - lia.
  - intros Hrun.
    apply bind_Halted_inv in Hrun as [Hrun|([lines c1] & w1 & Hstep & Hrun)].
    + eapply loop_free_write_scanlines; eauto.
    + pose proof (jpeg_write_scanlines_spec (fun _ => True) buf size c
        (grayData + C.to_uint (next_scanline c * C.to_uint width)) 1 w
        Hw I) as Hspec.
      rewrite Hstep in Hspec. simpl in Hspec.
      destruct Hspec as (Hp & Hw1 & _ & Hn1 & m & bs & Hans).
      apply Hprog in Hans.
      destruct Hp as (_&_&_&_&Hh1&_).
      assert (Hnext : next_scanline c1 = next_scanline c + lines).
      { rewrite Hn1. apply to_uint_small. unfold C.UINT_MAX. lia. }
      simpl in Hrun. eapply (IH c1 w1); eauto; lia.
Qed.

(** X4.  One grayscale encode of a [width] by [height] image into
    [outputSize] bytes at [output]: row [s] is read through the pointer
    [grayData + s * width], for [s] below the height only, and every
    other engine call is one on the compressor; no byte outside the
    output changes and the caller's [DecodeInfo] is left alone, however
    the call ends; a call that returns returns a size between 0 and the
    capacity; the call never stops on an undefined operation, and with
    an engine that consumes a row per request and an iteration budget of
    the height it returns or ends in the engine's error exit. *)
Theorem EncodeGray8_complete fuel grayData width height quality
    output outputSize w :
  0 <= width <= C.INT_MAX -> 0 <= height <= C.INT_MAX ->
  width * height <= C.UINT_MAX ->
  0 <= outputSize <= C.ULONG_MAX ->
  let o := EncodeGray8 E fuel grayData width height quality output outputSize w in
  (exists rest,
     calls (final_world o) = calls w ++ rest /\
     Forall (gray_encode_event grayData width height) rest) /\
  info_cell (final_world o) = info_cell w /\
  unchanged_outside output (output + outputSize) w (final_world o) /\
  (forall r w', o = Returned r w' ->
     0 <= r <= outputSize /\
     exists rest, calls w' = calls w ++ rest ++ [call_destroy_compress]) /\
  (forall hlt w', o = Halted hlt w' -> hlt <> Undefined) /\
  (scanline_progress E -> height <= Z.of_nat fuel ->
   forall hlt w', o = Halted hlt w' -> hlt = ErrorExit).
Proof.
  intros Hwidth Hheight HwH Hsize o.
  pose proof int_le_uint.
  set (P := gray_encode_event grayData width height).
  set (c3 := set_quant
               {| dest := Some 4096;
                  mem := {| small_blocks := <[4096 := fresh_dest output outputSize]> ∅;
                            pool_brk := 4096 + sizeof_memory_destination_mgr |};
                  image_width := C.to_uint width;
                  image_height := C.to_uint height;
                  input_components := 1; in_color_space := JCS_GRAYSCALE;
                  raw_data_in := false;
                  comp_info := default_comp_info E JCS_GRAYSCALE;
                  dct_method := JDCT_DEFAULT E;
                  quant := default_quant E; next_scanline := 0 |}
               (quality, true)).
  set (w3 := add_call (add_call (add_call w call_create_compress)
                         call_set_defaults) (call_set_quality quality true)).
  set (m6 := let* c4 := jpeg_start_compress E c3 in
             let* c5 := EncodeGray8_loop E fuel grayData width c4 in
             jpeg_finish_compress E c5).
  set (K := fun c6 : jpeg_compress_struct =>
              match small_blocks (mem c6) !! 4096 with
              | Some d => let* _ := jpeg_destroy_compress c6 in ret (data_size d)
              | None => halt_with Undefined
              end).
  assert (Ho : o = bind m6 K w3).
  { subst o m6. unfold EncodeGray8, jpeg_create_compress.
    rewrite bind_assoc, bind_log, bind_ret.
    cbv zeta. unfold jpeg_set_defaults. rewrite bind_assoc, bind_log, bind_ret.
    unfold jpeg_set_quality. rewrite bind_assoc, bind_log, bind_ret.
    change (bind (jpeg_start_compress E c3)
              (fun c4 => bind (EncodeGray8_loop E fuel grayData width c4)
                 (fun c5 => bind (jpeg_finish_compress E c5) K)) w3
            = bind (bind (jpeg_start_compress E c3)
                      (fun c4 => bind (EncodeGray8_loop E fuel grayData width c4)
                         (fun c5 => jpeg_finish_compress E c5))) K w3).
    unfold bind. destruct (jpeg_start_compress E c3 w3) as [c4 w4|]; [|done].
    by destruct (EncodeGray8_loop E fuel grayData width c4 w4). }
  clearbody o.
  assert (Hh3 : image_height c3 = height)
    by (cbn; apply to_uint_small; lia).
  assert (Hb3 : bound_to output outputSize c3).
  { exists 4096, (fresh_dest output outputSize). cbn.
    split; [done|]. split; [apply lookup_insert_eq|]. done. }
  assert (Hw3 : extends P output outputSize w w3).
  { repeat (eapply extends_trans; [|apply extends_add_call; exact I]).
    apply extends_refl. }
  assert (Hadv : advances P output outputSize c3 w3 (fun c' => c')
                   (fun c' => exists r, finished output outputSize c' r)
                   (m6 w3)).
  { subst m6.
    eapply advances_bind; [apply jpeg_start_compress_spec; [done|exact I]|].
    intros c4 w4 Hn4 Hp4 Hw4. cbv beta in Hn4.
    assert (Hh4 : image_height c4 = height).
    { destruct Hp4 as (_&_&_&_&Hx&_). congruence. }
    eapply advances_bind.
    { apply EncodeGray8_loop_spec; [lia|lia|done|done|done|lia]. }
    intros c5 w5 _ Hp5 Hw5. cbv beta.
    apply jpeg_finish_compress_spec; [done|exact I]. }
  assert (Hfuel : scanline_progress E -> height <= Z.of_nat fuel ->
                  forall hlt w', m6 w3 = Halted hlt w' -> hlt <> OutOfFuel).
  { intros Hprog Hf hlt w' Hrun. subst m6.
    apply bind_Halted_inv in Hrun as [Hrun|(c4 & w4 & Hstart & Hrun)];
      [eapply loop_free_start_compress; eauto|].
    pose proof (jpeg_start_compress_spec E P output outputSize c3 w3 Hb3 I)
      as Hs. rewrite Hstart in Hs. destruct Hs as (Hp4 & Hw4 & _ & Hn4).
    assert (Hh4 : image_height c4 = height).
    { destruct Hp4 as (_&_&_&_&Hx&_). congruence. }
    apply bind_Halted_inv in Hrun as [Hrun|(c5 & w5 & _ & Hrun)];
      [|eapply loop_free_finish_compress; eauto].
    eapply (EncodeGray8_loop_fuel output outputSize grayData width fuel c4 w4);
      eauto; rewrite ?Hh4, ?Hn4; unfold C.INT_MAX in *; lia. }
  unfold bind in Ho.
  destruct (m6 w3) as [c6 w6|h6 w6] eqn:Hrun; cbn [advances] in Hadv.
  - destruct Hadv as (Hp6 & Hw6 & He6 & r & d & free & Hobj & _ & _ & _ & Hr
                      & Hv & Hrange).
    assert (Hl : small_blocks (mem c6) !! 4096 = Some d).
    { destruct Hp6 as (Hd6 & _). unfold dest_obj in Hobj.
      rewrite Hd6 in Hobj. exact Hobj. }
    subst K. cbv beta in Ho. rewrite Hl in Ho.
    cbv [bind jpeg_destroy_compress log ret] in Ho. subst o.
    cbn [final_world].
    pose proof (extends_trans P output outputSize _ _ _ Hw3 He6)
      as (Hi & (rest & Hc & HF) & _ & Hram).
    split; [|split; [|split; [|split; [|split]]]].
    + exists (rest ++ [call_destroy_compress]). cbn [calls].
      rewrite Hc, app_assoc. split; [done|].
      apply Forall_app. split; [done|]. by repeat constructor.
    + exact Hi.
    + intros a Ha. cbn [ram]. apply Hram; [lia|done].
    + intros r' w' Hx. injection Hx as <- <-. cbn [calls].
      split; [|exists rest; by rewrite Hc, app_assoc].
      specialize (Hrange ltac:(lia)).
      rewrite Hr, Hv, to_ulong_small; lia.
    + intros hlt w' Hx. discriminate.
    + intros _ _ hlt w' Hx. discriminate.
  - destruct Hadv as (Hne & He6). subst o. cbn [final_world].
    pose proof (extends_trans P output outputSize _ _ _ Hw3 He6)
      as (Hi & (rest & Hc & HF) & _ & Hram).
    split; [|split; [|split; [|split; [|split]]]].
    + exists rest. done.
    + exact Hi.
    + intros a Ha. apply Hram; [lia|done].
    + intros r' w' Hx. discriminate.
    + intros hlt w' Hx. by injection Hx as <- _.
    + intros Hprog Hf hlt w' Hx. injection Hx as <- _.
      specialize (Hfuel Hprog Hf h6 w6 eq_refl).
      destruct h6; done.
Qed.

End GrayEncode.

(** ** The destination adapter when the buffer is too small *)

Section Overflow.


End Overflow.

(** ** The further properties on the toy engines *)

Section FurtherRuns.

Lemma stride_engine_rows_fit : gray_rows_fit stride_engine.
Proof.
  intros c m lines samples Hans. simpl in Hans. injection Hans as _ <-.
  rewrite length_replicate. pose proof (Gray_rowStride_range c). lia.
Defined.

Lemma stride_engine_progress : scanline_progress stride_engine.
Proof.
  split.
  - intros c m lines samples Hans. simpl in Hans. by injection Hans as <- _.
  - intros c row m lines bs Hans. simpl in Hans. by injection Hans as <- _.
Defined.

Lemma toy_engine_scanlines : scanline_progress toy_engine.
Proof.
  split.
  - intros c m lines samples Hans. simpl in Hans. by injection Hans as <- _.
  - intros c row m lines bs Hans. simpl in Hans. by injection Hans as <- _.
Defined.

Lemma toy_engine_rows_fit : raw_rows_fit toy_engine.
Proof.
  intros c m lines ys us vs Hans. simpl in Hans.
  injection Hans as _ <- <- <-.
  split; [|split]; repeat constructor; by rewrite length_replicate.
Defined.

Lemma toy_engine_batches : raw_read_progress toy_engine.
Proof.
  intros c m lines planes Hans. simpl in Hans. injection Hans as <- _. lia.
Defined.

(** A three-byte stream is too short for the toy header. *)
Lemma rejected_header_decodes_nothing_witness :
  DecodeToGray toy_engine 20 1000 3 5000 640 toy_world
    = Returned 0 (probed_world toy_world blank_info) /\
  DecodeToI420 toy_engine 2 1000 3 5000 960 toy_world
    = Returned 0 (probed_world toy_world blank_info).
Proof.
  split.
  - apply (rejected_header_decodes_nothing toy_engine 20 1000 3 5000 640
             toy_world JPEG_SUSPENDED blank_header); [reflexivity|discriminate].
  - apply (rejected_header_decodes_nothing toy_engine 2 1000 3 5000 960
             toy_world JPEG_SUSPENDED blank_header); [reflexivity|discriminate].
Defined.

(** The 32 x 20 toy image decoded to grayscale into 640 bytes at 5000. *)
Lemma DecodeToGray_complete_witness :
  unchanged_outside 5000 (5000 + 32 * 20) toy_world
    (final_world (DecodeToGray stride_engine 20 1000 4 5000 640 toy_world)) /\
  info_cell (final_world (DecodeToGray stride_engine 20 1000 4 5000 640 toy_world))
    = {| width := 32; height := 20; components := 1;
         colorSpace := int_of_color_space JCS_GRAYSCALE |} /\
  (forall hlt w',
     DecodeToGray stride_engine 20 1000 4 5000 640 toy_world = Halted hlt w' ->
     hlt = ErrorExit).
Proof.
  pose proof (DecodeToGray_complete stride_engine 20 1000 4 5000 640 toy_world
                toy_header 32 20 1 eq_refl eq_refl
                ltac:(unfold C.UINT_MAX; lia) stride_engine_rows_fit
                ltac:(vm_compute; congruence)) as H.
  cbv zeta in H. destruct H as (H1 & H2 & _ & H4).
  split; [exact H1|]. split; [exact H2|].
  apply (H4 stride_engine_progress). simpl. lia.
Defined.

(** The same image decoded to I420 into 960 bytes at 2000. *)
Lemma DecodeToI420_complete_witness :
  unchanged_outside 2000 (2000 + 960) toy_world
    (final_world (DecodeToI420 toy_engine 20 1000 4 2000 960 toy_world)) /\
  (forall hlt w',
     DecodeToI420 toy_engine 20 1000 4 2000 960 toy_world = Halted hlt w' ->
     hlt = ErrorExit).
Proof.
  pose proof (DecodeToI420_complete toy_engine 20 1000 4 2000 960 toy_world
                toy_header 32 20 3 eq_refl eq_refl
                ltac:(lia) ltac:(lia)
                ltac:(unfold C.INT_MAX; lia) ltac:(unfold C.INT_MAX; lia)
                toy_engine_rows_fit ltac:(vm_compute; congruence)) as H.
  cbv zeta in H. destruct H as (H1 & _ & H3).
  split; [exact H1|].
  apply (H3 toy_engine_batches). simpl. lia.
Defined.

(** A 32 x 20 grayscale image at 3000 encoded into 100 bytes at 5000. *)
Lemma EncodeGray8_complete_witness :
  unchanged_outside 5000 (5000 + 100) toy_world
    (final_world (EncodeGray8 toy_engine 20 3000 32 20 80 5000 100 toy_world)) /\
  (forall r w',
     EncodeGray8 toy_engine 20 3000 32 20 80 5000 100 toy_world = Returned r w' ->
     0 <= r <= 100) /\
  (forall hlt w',
     EncodeGray8 toy_engine 20 3000 32 20 80 5000 100 toy_world = Halted hlt w' ->
     hlt = ErrorExit).
Proof.
  pose proof (EncodeGray8_complete toy_engine 20 3000 32 20 80 5000 100 toy_world
                ltac:(unfold C.INT_MAX; lia) ltac:(unfold C.INT_MAX; lia)
                ltac:(unfold C.UINT_MAX; lia)
                ltac:(unfold C.ULONG_MAX; lia)) as H.
  cbv zeta in H. destruct H as (_ & _ & H3 & H4 & _ & H6).
  split; [exact H3|]. split.
  - intros r w' Hr. apply (H4 r w' Hr).
  - apply (H6 toy_engine_scanlines). simpl. lia.
Defined.

Lemma Encode_keeps_session_witness :
  exists r enc' w',
    YuvEncoder.Encode toy_engine 20 toy_session 3000 5000 100 toy_world
      = Returned (r, enc') w' /\
    same_params (YuvEncoder.cinfo toy_session) (YuvEncoder.cinfo enc') /\
    has_adapter (YuvEncoder.cinfo enc') /\
    info_cell w' = info_cell toy_world.
Proof.
  destruct (YuvEncoder.Encode toy_engine 20 toy_session 3000 5000 100 toy_world)
    as [[r enc'] w'|h w'] eqn:Hrun.
  - exists r, enc', w'. split; [reflexivity|].
    destruct (Encode_keeps_session toy_engine 20 toy_session 3000 5000 100
                toy_world r enc' w' toy_session_has_adapter Hrun)
      as (H1 & H2 & H3 & _).
    auto.
  - exfalso. vm_compute in Hrun. discriminate.
Defined.

Lemma skip_input_data_adds_witness :
  (skip_input_data (jpeg_memory_src fresh_decompress 1000 4) 6
     ≫= fun c' => skip_input_data c' 2)
  = skip_input_data (jpeg_memory_src fresh_decompress 1000 4) 8 /\
  exists s',
    src <$> skip_input_data (jpeg_memory_src fresh_decompress 1000 4) 6
      = Some (Some s') /\
    next_input_byte s' = 1000 + 6 /\
    bytes_in_buffer s' = 2 ^ 64 - (6 - 4).
Proof.
  destruct (skip_input_data_adds (jpeg_memory_src fresh_decompress 1000 4)
              (bound_source 1000 4) 6 2 eq_refl ltac:(lia) ltac:(lia))
    as (H1 & H2).
  split; [exact H1|].
  destruct (H2 ltac:(simpl; lia) ltac:(simpl; lia)) as (s' & Hs & Hn & _ & Hb).
  exists s'. auto.
Defined.

(** The second batch of a 20-row frame: luma slot 4 is row 20. *)
Lemma bottom_edge_slots_witness :
  rows_y (Encode_batch 3000 3640 3800 32 20 16) !! Z.to_nat 4 = Some None /\
  exists p, rows_y (DecodeToI420_batch 16 32 20 2000 2640 2800 blank_rows)
              !! Z.to_nat 4 = Some (Some p).
Proof.
  destruct (bottom_edge_slots 16 32 20 3000 3640 3800 ltac:(lia) ltac:(lia))
    as (H1 & _).
  destruct (bottom_edge_slots 16 32 20 2000 2640 2800 ltac:(lia) ltac:(lia))
    as (_ & _ & H3 & _).
  split.
  - apply H1; lia.
  - apply H3; [by repeat split|lia].
Defined.

Lemma new_session_witness :
  exists enc w',
    YuvEncoder.new toy_engine 32 20 80 0 toy_world = Returned enc w' /\
    comp_info (YuvEncoder.cinfo enc) !! 0%nat = Some (2, 2) /\
    comp_info (YuvEncoder.cinfo enc) !! 1%nat = Some (1, 1) /\
    comp_info (YuvEncoder.cinfo enc) !! 2%nat = Some (1, 1).
Proof.
  destruct (new_session toy_engine 32 20 80 0 toy_world)
    as (enc & Hrun & _ & _ & _ & _ & _ & _ & _ & _ & _ & Hsamp).
  exists enc. eexists. split; [exact Hrun|].
  apply Hsamp. simpl. lia.
Defined.


End FurtherRuns.
